(** * Black-Scholes call pricing and implied volatility (project.py)

    A shallow embedding of [d], [call] and [call_iv] of [project.py].
    Python floats are idealised as real numbers: there is no rounding, no
    overflow and no NaN in this development.  [numpy.log], [math.sqrt],
    [math.exp] are the real functions [ln], [sqrt], [exp];
    [scipy.stats.norm] is the standard normal law of module [Norm].

    The [while] loop of [call_iv] has no iteration bound in the source; it is
    run here with a fuel argument that only counts loop iterations, and a
    run that exhausts the fuel is reported as such. *)

From Stdlib Require Import String.
From Stdlib Require Import Reals Lra List ZArith Lia Bool.
Import ListNotations.

Local Open Scope R_scope.

(** ** scipy.stats.norm *)

Module Norm.

(** [norm.pdf]: the standard normal density. *)
Definition pdf (x : R) : R := exp (- (x * x) / 2) / sqrt (2 * PI).

(** The density is differentiable, with derivative [- x * pdf x]. *)
Lemma pdf_derivable : forall x : R, derivable_pt_lim pdf x (- x * pdf x).
Proof.
  intro x.
  assert (Hin : derivable_pt_lim (fun y => - (y * y) * / 2) x
                  (- (1 * x + x * 1) * / 2)).
  { apply (derivable_pt_lim_scal_right (fun y => - (y * y)) x).
    apply (derivable_pt_lim_opp (fun y => y * y)).
    apply (derivable_pt_lim_mult (fun y => y) (fun y => y));
      apply derivable_pt_lim_id. }
  pose proof (derivable_pt_lim_comp _ exp x _ _ Hin
                (derivable_pt_lim_exp _)) as Hexp.
  pose proof (derivable_pt_lim_scal_right _ x _ (/ sqrt (2 * PI)) Hexp) as H.
  replace (- x * pdf x)
    with (exp (- (x * x) * / 2) * (- (1 * x + x * 1) * / 2) * / sqrt (2 * PI)).
  - eapply derivable_pt_lim_ext; [| exact H].
    intro z; reflexivity.
  - unfold pdf, Rdiv.
    generalize (exp (- (x * x) * / 2)) (/ sqrt (2 * PI)); intros e i. lra.
Qed.

Lemma pdf_continuous : forall x : R, continuity_pt pdf x.
Proof.
  intro x. apply derivable_continuous_pt.
  exists (- x * pdf x). apply pdf_derivable.
Qed.

(** The density is Riemann integrable between any two bounds, in either
    order. *)
Definition pdf_integrable (a b : R) : Riemann_integrable pdf a b :=
  match Rle_dec a b with
  | left Hab =>
      continuity_implies_RiemannInt Hab (fun x _ => pdf_continuous x)
  | right Hba =>
      RiemannInt_P1
        (continuity_implies_RiemannInt
           (Rlt_le b a (Rnot_le_lt a b Hba)) (fun x _ => pdf_continuous x))
  end.

(** [norm.cdf]: the standard normal cumulative distribution function,
    one half plus the integral of the density from [0]. *)
Definition cdf (x : R) : R := 1 / 2 + RiemannInt (pdf_integrable 0 x).

End Norm.

(** ** Python helpers *)

(** Python's comparisons on the idealised floats, as booleans. *)
Definition Rge_b (a b : R) : bool := if Rle_dec b a then true else false.
Definition Rle_b (a b : R) : bool := if Rle_dec a b then true else false.
Definition Rlt_b (a b : R) : bool := if Rlt_dec a b then true else false.

(** Python's [range(start, stop, step)] for a positive [step]: the
    integers [start + i * step] below [stop]. *)
Definition range (start stop step : Z) : list Z :=
  map (fun i => (start + Z.of_nat i * step)%Z)
    (seq 0 (Z.to_nat ((stop - start + step - 1) / step))).

(** ** The pricing model and the solver *)

Section BlackScholes.

Variables P X T r : R.

(** [d(P, X, T, r, s)]: returns d1, d2 for Black-Scholes. *)
Definition d (s : R) : R * R :=
  let d1 := (ln (P / X) + (r + s ^ 2 / 2) * T) / (s * sqrt T) in
  let d2 := d1 - s * sqrt T in
  (d1, d2).

(** [call(P, X, T, r, s)]: returns the Black-Scholes call price. *)
Definition call (s : R) : R :=
  let '(d1, d2) := d s in
  P * Norm.cdf d1 - X * exp (- r * T) * Norm.cdf d2.

(** The observed price [C] of [call_iv(P, X, T, r, C)]. *)
Variable C : R.

Definition good_bound : R := 0.000001.
Definition bad_bound : R := 100.

(** What one pass through the body of the [while] loop does: it leaves the
    loop through a [break] (with [success = False]), or it reaches the end
    of the body with new values of [s] and [err]. *)
Inductive iteration : Type :=
| Break
| Next (s err : R).

(** The body of the [while] loop. *)
Definition loop_body (s err : R) : iteration :=
  if (Rge_b err bad_bound || Rle_b s 0)%bool then Break
  else
    let diff := call s - C in
    let '(d1, d2) := d s in
    let vega := P * Norm.pdf d1 * sqrt T in
    if Rlt_b vega 0.001 then Break
    else Next (s - diff / vega) (Rabs diff).

(** How the [while] loop ends: the values of [success] and [s] after it,
    or no end within the given number of iterations. *)
Inductive loop_exit : Type :=
| OutOfFuel
| LoopEnd (success : bool) (s : R).

(** [while (err >= good_bound): ...], run for at most [fuel] passes. *)
Fixpoint while_loop (fuel : nat) (s err : R) : loop_exit :=
  if Rge_b err good_bound then
    match fuel with
    | O => OutOfFuel
    | S fuel' =>
        match loop_body s err with
        | Break => LoopEnd false s
        | Next s' err' => while_loop fuel' s' err'
        end
    end
  else LoopEnd true s.

(** The [return] statement that ends [call_iv]: [return s] inside the
    [for] loop, or the final [return 0]. *)
Inductive returned : Type :=
| ReturnS (s : R)
| Return0.

Definition value (x : returned) : R :=
  match x with
  | ReturnS s => s
  | Return0 => 0
  end.

(** [for s in s_list: ...] followed by [return 0]; every guess starts with
    [err = 1] and gets [fuel] passes of the [while] loop.  [None] means
    that some guess ran out of fuel. *)
Fixpoint for_loop (fuel : nat) (guesses : list R) : option returned :=
  match guesses with
  | [] => Some Return0
  | s :: rest =>
      match while_loop fuel s 1 with
      | OutOfFuel => None
      | LoopEnd true s' => Some (ReturnS s')
      | LoopEnd false _ => for_loop fuel rest
      end
  end.

(** *** The same run, with the calls and divisions it performs

    An instrumented copy of the loops above: besides its result, every
    function returns, in order, the invocations of the pricing model and
    the divisions it evaluates.  [call_iv_traced_fst] below shows that
    the results are those of the plain functions. *)
Inductive event : Type :=
| Invoke_d (s : R)       (* [d(P, X, T, r, s)] is entered *)
| Invoke_call (s : R)    (* [call(P, X, T, r, s)] is entered *)
| Divide (num den : R)   (* [num / den] is evaluated inside [d] *)
| Update (diff vega : R). (* [s - (diff / vega)] is evaluated *)

Definition d_events (s : R) : list event :=
  [ Invoke_d s;
    Divide P X;
    Divide (s ^ 2) 2;
    Divide (ln (P / X) + (r + s ^ 2 / 2) * T) (s * sqrt T) ].

Definition call_events (s : R) : list event :=
  Invoke_call s :: d_events s.

Definition loop_body_traced (s err : R) : iteration * list event :=
  if (Rge_b err bad_bound || Rle_b s 0)%bool then (Break, [])
  else
    let diff := call s - C in
    let '(d1, d2) := d s in
    let vega := P * Norm.pdf d1 * sqrt T in
    let events := call_events s ++ d_events s in
    if Rlt_b vega 0.001 then (Break, events)
    else (Next (s - diff / vega) (Rabs diff), events ++ [Update diff vega]).

Fixpoint while_loop_traced (fuel : nat) (s err : R)
  : loop_exit * list event :=
  if Rge_b err good_bound then
    match fuel with
    | O => (OutOfFuel, [])
    | S fuel' =>
        match loop_body_traced s err with
        | (Break, events) => (LoopEnd false s, events)
        | (Next s' err', events) =>
            let '(e, events') := while_loop_traced fuel' s' err' in
            (e, events ++ events')
        end
    end
  else (LoopEnd true s, []).

Fixpoint for_loop_traced (fuel : nat) (guesses : list R)
  : option returned * list event :=
  match guesses with
  | [] => (Some Return0, [])
  | s :: rest =>
      match while_loop_traced fuel s 1 with
      | (OutOfFuel, events) => (None, events)
      | (LoopEnd true s', events) => (Some (ReturnS s'), events)
      | (LoopEnd false _, events) =>
          let '(x, events') := for_loop_traced fuel rest in
          (x, events ++ events')
      end
  end.

End BlackScholes.

(** [s_list = [x * 0.005 for x in range(10, 300, 5)]]. *)
Definition s_list : list R :=
  map (fun x => IZR x * 0.005) (range 10 300 5).

(** [call_iv(P, X, T, r, C)], with the [return] statement that was taken. *)
Definition call_iv_exit (P X T r C : R) (fuel : nat) : option returned :=
  for_loop P X T r C fuel s_list.

(** [call_iv(P, X, T, r, C)]: the float it returns. *)
Definition call_iv (P X T r C : R) (fuel : nat) : option R :=
  option_map value (call_iv_exit P X T r C fuel).

(** [call_iv(P, X, T, r, C)] with the events of its run. *)
Definition call_iv_traced (P X T r C : R) (fuel : nat)
  : option R * list event :=
  let '(x, events) := for_loop_traced P X T r C fuel s_list in
  (option_map value x, events).

(** A safe event: the pricing model is entered with a
    positive volatility, no division has a zero divisor, and the Newton
    update divides by a vega of at least 0.001. *)
Definition event_safe (e : event) : Prop :=
  match e with
  | Invoke_d s => 0 < s
  | Invoke_call s => 0 < s
  | Divide _ den => den <> 0
  | Update _ vega => 0.001 <= vega /\ vega <> 0
  end.

(** The value [call_iv] binds to its local variable [vega] when the
    candidate volatility is [s]. *)
Definition vega (P X T r s : R) : R :=
  P * Norm.pdf (fst (d P X T r s)) * sqrt T.

(** The value [call_iv] binds to its local variable [diff] when the
    candidate volatility is [s]: the price error. *)
Definition diff (P X T r C s : R) : R := call P X T r s - C.

(** The update [s - (diff / vega)] of the loop body at the candidate
    [s]. *)
Definition newton (P X T r C s : R) : R :=
  s - diff P X T r C s / vega P X T r s.

(** The constant [1 / sqrt(2 pi)] of the normal density. *)
Definition inv_c : R := / sqrt (2 * PI).

(** The part of d1 and d2 that does not depend on the volatility:
    d1 = moneyness / s + sqrt T / 2 * s and
    d2 = moneyness / s - sqrt T / 2 * s. *)
Definition moneyness (P X T r : R) : R := (ln (P / X) + r * T) / sqrt T.

(** An input on which the search converges to a negative value: spot and
    strike 10, expiry in 1/10000 year, rate 0.2%, and the observed price
    for which the first Newton step from the guess 0.05 lands on
    0.00001. *)
Definition T_low : R := 1 / 10000.
Definition r_low : R := 1 / 500.
Definition C_low : R :=
  call 10 10 T_low r_low 0.05
  - vega 10 10 T_low r_low 0.05 * (0.05 - 0.00001).

(** ** The formulas of the specification

    Written from the specification's text, to be compared with [d] and
    [call]. *)

Definition d1_spec (P X T r s : R) : R :=
  (ln (P / X) + (r + s² / 2) * T) / (s * sqrt T).

Definition d2_spec (P X T r s : R) : R :=
  d1_spec P X T r s - s * sqrt T.

Definition price_spec (P X T r s : R) : R :=
  P * Norm.cdf (d1_spec P X T r s)
  - X * exp (- (r * T)) * Norm.cdf (d2_spec P X T r s).

(** The sequence of guesses as the specification words it: 0.05, 0.055,
    0.060, ... stepping by 0.005 up to 1.50. *)
Definition s_list_spec : list R :=
  map (fun k => 0.05 + 0.005 * INR k) (seq 0 291).

(** ** plot_ivs and main

    [plot_ivs] reads its data from Yahoo Finance and draws with matplotlib.
    The data is taken here as it arrives: for every entry [d] of
    [ticker.options], the number of days [(date_parsed - today).days], the
    rows of [ticker.option_chain(d)[0]] and the closing price.  The figure
    is the three lists handed to [scatter3D]. *)

(** A row of the calls table: [call['strike']] and [call['lastPrice']]. *)
Record call_row : Type := {
  strike : R;
  lastPrice : R
}.

(** One entry of [ticker.options] with what is fetched for it. *)
Record expiry : Type := {
  days : Z;
  calls : list call_row;
  price : R
}.

(** The lists [expirys], [moneynesses] and [ivs]. *)
Record figure : Type := {
  expirys : list R;
  moneynesses : list R;
  ivs : list R
}.

Definition no_points : figure :=
  {| expirys := []; moneynesses := []; ivs := [] |}.

(** How a run of [plot_ivs] ends: with a result, with the [ValueError]
    that [math.sqrt] raises on a negative [T], or with a solver that ran
    out of fuel. *)
Inductive run (A : Type) : Type :=
| Finished (a : A)
| ValueError
| NoFuel.

Arguments Finished {A} a.
Arguments ValueError {A}.
Arguments NoFuel {A}.

Definition Req_b (a b : R) : bool := if Req_dec_T a b then true else false.

(** [r = 0.0285], the risk-free rate of [plot_ivs]. *)
Definition r_plot : R := 0.0285.

(** [iv != 0 and 0 < moneyness and moneyness < 2]. *)
Definition kept (iv moneyness : R) : bool :=
  (negb (Req_b iv 0) && Rlt_b 0 moneyness && Rlt_b moneyness 2)%bool.

(** [for _, call in calls.iterrows(): ...].  With a negative [T] the first
    pass of [call_iv] evaluates [sqrt(T)] in [d], which raises. *)
Fixpoint for_calls (fuel : nat) (price T : R) (rows : list call_row)
  (fig : figure) : run figure :=
  match rows with
  | [] => Finished fig
  | row :: rest =>
      if Rlt_b T 0 then ValueError
      else
        match call_iv price (strike row) T r_plot (lastPrice row) fuel with
        | None => NoFuel
        | Some iv =>
            let moneyness := strike row / price in
            if kept iv moneyness then
              for_calls fuel price T rest
                {| expirys := expirys fig ++ [T];
                   moneynesses := moneynesses fig ++ [moneyness];
                   ivs := ivs fig ++ [iv] |}
            else for_calls fuel price T rest fig
        end
  end.

(** [for d in ticker.options: ...]. *)
Fixpoint for_options (fuel : nat) (options : list expiry) (fig : figure)
  : run figure :=
  match options with
  | [] => Finished fig
  | e :: rest =>
      let T := IZR (days e) / 365 in
      if Req_b T 0 then for_options fuel rest fig
      else
        match for_calls fuel (price e) T (calls e) fig with
        | Finished fig' => for_options fuel rest fig'
        | ValueError => ValueError
        | NoFuel => NoFuel
        end
  end.

(** [plot_ivs(symbol)], given [ticker.options] for the symbol: the value
    returned and the figure shown, if one is. *)
Definition plot_ivs (fuel : nat) (options : list expiry)
  : run (Z * option figure) :=
  match options with
  | [] => Finished (1%Z, None)
  | _ :: _ =>
      match for_options fuel options no_points with
      | Finished fig => Finished (0%Z, Some fig)
      | ValueError => ValueError
      | NoFuel => NoFuel
      end
  end.

(** [main()], given [argv] and the options of every symbol: the lines
    printed and the figure shown, if one is. *)
Definition main (fuel : nat) (market : string -> list expiry)
  (argv : list string) : run (list string * option figure) :=
  match argv with
  | _ :: symbol :: _ =>
      match plot_ivs fuel (market symbol) with
      | Finished (code, fig) =>
          if (code =? 0)%Z then Finished ([], fig)
          else Finished (["Invalid ticker symbol."%string], fig)
      | ValueError => ValueError
      | NoFuel => NoFuel
      end
  | _ => Finished (["Provide ticker symbol."%string], None)
  end.

(** The points of a figure, as [scatter3D] pairs the three lists up. *)
Definition points (fig : figure) : list (R * (R * R)) :=
  combine (expirys fig) (combine (moneynesses fig) (ivs fig)).

(** The three lists of a figure have the same length. *)
Definition aligned (fig : figure) : Prop :=
  length (expirys fig) = length (moneynesses fig)
  /\ length (moneynesses fig) = length (ivs fig).

(** What the rows of one expiry add to the figure. *)
Definition row_point (fuel : nat) (price T : R) (row : call_row)
  (p : R * (R * R)) : Prop :=
  exists iv : R,
    call_iv price (strike row) T r_plot (lastPrice row) fuel = Some iv
    /\ iv <> 0 /\ 0 < strike row / price < 2
    /\ p = (T, (strike row / price, iv)).

(** What the options of a ticker add to the figure. *)
Definition option_point (fuel : nat) (e : expiry) (p : R * (R * R)) : Prop :=
  days e <> 0%Z
  /\ exists row, In row (calls e)
                 /\ row_point fuel (price e) (IZR (days e) / 365) row p.

(** * Properties of the model *)

(** ** Comparisons *)

Lemma Rge_b_true (a b : R) : Rge_b a b = true <-> b <= a.
Proof. unfold Rge_b; destruct (Rle_dec b a); split; intros; easy. Qed.

Lemma Rge_b_false (a b : R) : Rge_b a b = false <-> a < b.
Proof.
  unfold Rge_b; destruct (Rle_dec b a); split; intros; try easy; lra.
Qed.

Lemma Rle_b_true (a b : R) : Rle_b a b = true <-> a <= b.
Proof. unfold Rle_b; destruct (Rle_dec a b); split; intros; easy. Qed.

Lemma Rle_b_false (a b : R) : Rle_b a b = false <-> b < a.
Proof.
  unfold Rle_b; destruct (Rle_dec a b); split; intros; try easy; lra.
Qed.

Lemma Rlt_b_true (a b : R) : Rlt_b a b = true <-> a < b.
Proof. unfold Rlt_b; destruct (Rlt_dec a b); split; intros; easy. Qed.

Lemma Rlt_b_false (a b : R) : Rlt_b a b = false <-> b <= a.
Proof.
  unfold Rlt_b; destruct (Rlt_dec a b); split; intros; try easy; lra.
Qed.

(** ** The list of guesses *)

Lemma range_10_300_5_length :
  Z.to_nat ((300 - 10 + 5 - 1) / 5) = 58%nat.
Proof. reflexivity. Qed.

Lemma s_list_formula :
  s_list = map (fun k => 0.05 + 0.025 * INR k) (seq 0 58).
Proof.
  unfold s_list, range. rewrite range_10_300_5_length, map_map.
  apply map_ext. intro k.
  rewrite plus_IZR, mult_IZR, <- INR_IZR_INZ. lra.
Qed.

Lemma s_list_length : length s_list = 58%nat.
Proof. rewrite s_list_formula, length_map, length_seq. reflexivity. Qed.

Lemma s_list_nth (i : nat) :
  (i < 58)%nat -> nth i s_list 0 = 0.05 + 0.025 * INR i.
Proof.
  intro Hi. rewrite s_list_formula.
  pose proof (map_nth (fun k => 0.05 + 0.025 * INR k) (seq 0 58) 0%nat i) as H.
  rewrite seq_nth in H by exact Hi. cbv beta in H.
  rewrite Nat.add_0_l in H. rewrite <- H.
  apply nth_indep. rewrite length_map, length_seq. exact Hi.
Qed.

Lemma s_list_head : exists rest, s_list = 0.05 :: rest.
Proof.
  rewrite s_list_formula. cbn [seq map].
  eexists. f_equal. cbn [INR]. lra.
Qed.

Lemma s_list_positive (g : R) : In g s_list -> 0.05 <= g.
Proof.
  rewrite s_list_formula, in_map_iff. intros [k [<- _]].
  pose proof (pos_INR k). lra.
Qed.

Lemma s_list_last : last s_list 0 = 1.475.
Proof.
  rewrite s_list_formula.
  change 58%nat with (57 + 1)%nat. rewrite seq_app, map_app.
  cbn [seq map Nat.add]. rewrite last_last.
  replace (INR 57) with 57 by (rewrite INR_IZR_INZ; reflexivity). lra.
Qed.

Lemma s_list_increasing (i j : nat) :
  (i < j < 58)%nat -> nth i s_list 0 < nth j s_list 0.
Proof.
  intros [Hij Hj]. rewrite !s_list_nth by lia.
  apply lt_INR in Hij. lra.
Qed.

Lemma s_list_second : nth 1 s_list 0 = 0.075.
Proof. rewrite s_list_nth by lia. cbn [INR]. lra. Qed.

(** ** One pass through the loop body *)

Section LoopFacts.

Variables P X T r C : R.

(** The body, with the local [vega] named. *)
Lemma loop_body_eq (s err : R) :
  loop_body P X T r C s err =
  if (Rge_b err bad_bound || Rle_b s 0)%bool then Break
  else if Rlt_b (vega P X T r s) 0.001 then Break
       else Next (s - diff P X T r C s / vega P X T r s)
              (Rabs (diff P X T r C s)).
Proof. reflexivity. Qed.

Lemma loop_body_Next (s err s' err' : R) :
  loop_body P X T r C s err = Next s' err' <->
  err < bad_bound /\ 0 < s /\ 0.001 <= vega P X T r s
  /\ s' = s - diff P X T r C s / vega P X T r s
  /\ err' = Rabs (diff P X T r C s).
Proof.
  rewrite loop_body_eq.
  destruct (Rge_b err bad_bound) eqn:Hbad; cbn [orb].
  - apply Rge_b_true in Hbad. split; [discriminate | lra].
  - apply Rge_b_false in Hbad.
    destruct (Rle_b s 0) eqn:Hs.
    + apply Rle_b_true in Hs. split; [discriminate | lra].
    + apply Rle_b_false in Hs.
      destruct (Rlt_b (vega P X T r s) 0.001) eqn:Hv.
      * apply Rlt_b_true in Hv. split; [discriminate | lra].
      * apply Rlt_b_false in Hv. split.
        -- intro H; injection H as <- <-. auto.
        -- intros (_ & _ & _ & -> & ->). reflexivity.
Qed.

Lemma loop_body_Break (s err : R) :
  loop_body P X T r C s err = Break <->
  bad_bound <= err \/ s <= 0 \/ vega P X T r s < 0.001.
Proof.
  rewrite loop_body_eq.
  destruct (Rge_b err bad_bound) eqn:Hbad; cbn [orb].
  - apply Rge_b_true in Hbad. tauto.
  - apply Rge_b_false in Hbad.
    destruct (Rle_b s 0) eqn:Hs.
    + apply Rle_b_true in Hs. tauto.
    + apply Rle_b_false in Hs.
      destruct (Rlt_b (vega P X T r s) 0.001) eqn:Hv.
      * apply Rlt_b_true in Hv. tauto.
      * apply Rlt_b_false in Hv. split; [discriminate | lra].
Qed.

Lemma while_loop_exit (fuel : nat) (s err : R) :
  err < good_bound -> while_loop P X T r C fuel s err = LoopEnd true s.
Proof.
  intro H. apply Rge_b_false in H.
  destruct fuel; cbn [while_loop]; rewrite H; reflexivity.
Qed.

Lemma while_loop_enter (fuel : nat) (s err : R) :
  good_bound <= err ->
  while_loop P X T r C (S fuel) s err =
  match loop_body P X T r C s err with
  | Break => LoopEnd false s
  | Next s' err' => while_loop P X T r C fuel s' err'
  end.
Proof.
  intro H. apply Rge_b_true in H. cbn [while_loop]. rewrite H. reflexivity.
Qed.

Lemma while_loop_no_fuel (s err : R) :
  good_bound <= err -> while_loop P X T r C 0 s err = OutOfFuel.
Proof.
  intro H. apply Rge_b_true in H. cbn [while_loop]. rewrite H. reflexivity.
Qed.

Lemma good_bound_lt_1 : good_bound <= 1.
Proof. unfold good_bound. lra. Qed.

(** More fuel does not change the way a loop ends. *)
Lemma while_loop_more_fuel (fuel : nat) :
  forall (s err : R) (b : bool) (v : R),
    while_loop P X T r C fuel s err = LoopEnd b v ->
    while_loop P X T r C (S fuel) s err = LoopEnd b v.
Proof.
  induction fuel as [| fuel IH]; intros s err b v H.
  - destruct (Rle_dec good_bound err) as [Hge | Hlt].
    + rewrite while_loop_no_fuel in H by exact Hge. discriminate.
    + rewrite while_loop_exit in * by lra. exact H.
  - destruct (Rle_dec good_bound err) as [Hge | Hlt].
    + rewrite while_loop_enter in * by exact Hge.
      destruct (loop_body P X T r C s err) as [| s' err']; [exact H |].
      apply IH. exact H.
    + rewrite while_loop_exit in * by lra. exact H.
Qed.

(** A loop that ends with [success = True] was left by its condition: either
    at once, or after a pass whose candidate passed the three checks and
    whose price error is below [good_bound]; [s] then holds the Newton
    update of that candidate. *)
Lemma while_loop_success (fuel : nat) :
  forall (s err v : R),
    while_loop P X T r C fuel s err = LoopEnd true v ->
    (err < good_bound /\ v = s)
    \/ exists s0 : R,
        0 < s0 /\ 0.001 <= vega P X T r s0
        /\ Rabs (diff P X T r C s0) < good_bound
        /\ v = s0 - diff P X T r C s0 / vega P X T r s0.
Proof.
  induction fuel as [| fuel IH]; intros s err v H.
  - destruct (Rle_dec good_bound err) as [Hge | Hlt].
    + rewrite while_loop_no_fuel in H by exact Hge. discriminate.
    + rewrite while_loop_exit in H by lra. injection H as <-. left. lra.
  - destruct (Rle_dec good_bound err) as [Hge | Hlt].
    + rewrite while_loop_enter in H by exact Hge.
      destruct (loop_body P X T r C s err) as [| s' err'] eqn:Hbody;
        [discriminate |].
      apply loop_body_Next in Hbody.
      destruct Hbody as (_ & Hs & Hv & -> & ->).
      apply IH in H. destruct H as [[Herr ->] | H]; [| right; exact H].
      right. exists s. auto.
    + rewrite while_loop_exit in H by lra. injection H as <-. left. lra.
Qed.

Lemma for_loop_skip (fuel : nat) (tried rest : list R) :
  (forall g, In g tried ->
             exists s', while_loop P X T r C fuel g 1 = LoopEnd false s') ->
  for_loop P X T r C fuel (tried ++ rest) = for_loop P X T r C fuel rest.
Proof.
  induction tried as [| g tried IH]; intro H; [reflexivity |].
  cbn [app for_loop].
  destruct (H g (or_introl eq_refl)) as [s' ->].
  apply IH. intros g' Hg'. apply H. right. exact Hg'.
Qed.

Lemma for_loop_all_fail (fuel : nat) (guesses : list R) :
  (forall g, In g guesses ->
             exists s', while_loop P X T r C fuel g 1 = LoopEnd false s') ->
  for_loop P X T r C fuel guesses = Some Return0.
Proof.
  intro H. rewrite <- (app_nil_r guesses).
  rewrite for_loop_skip by exact H. reflexivity.
Qed.

(** [return s] is reached from a guess whose loop ended with
    [success = True], all earlier guesses having failed. *)
Lemma for_loop_ReturnS (fuel : nat) (guesses : list R) (v : R) :
  for_loop P X T r C fuel guesses = Some (ReturnS v) ->
  exists tried g rest,
    guesses = tried ++ g :: rest
    /\ (forall g', In g' tried ->
          exists s', while_loop P X T r C fuel g' 1 = LoopEnd false s')
    /\ while_loop P X T r C fuel g 1 = LoopEnd true v.
Proof.
  induction guesses as [| g guesses IH]; cbn [for_loop]; [discriminate |].
  destruct (while_loop P X T r C fuel g 1) as [| [|] s'] eqn:Hg.
  - discriminate.
  - intro H; injection H as ->.
    exists [], g, guesses. repeat split; [intros g' [] | exact Hg].
  - intro H. destruct (IH H) as (tried & g0 & rest & -> & Htried & Hg0).
    exists (g :: tried), g0, rest. repeat split; [| exact Hg0].
    intros g' [<- | Hg']; [exists s'; exact Hg | apply Htried; exact Hg'].
Qed.

End LoopFacts.

(** ** More fuel, same result *)

Lemma while_loop_fuel_le (P X T r C : R) (fuel fuel' : nat) (s err : R)
  (b : bool) (v : R) :
  (fuel <= fuel')%nat ->
  while_loop P X T r C fuel s err = LoopEnd b v ->
  while_loop P X T r C fuel' s err = LoopEnd b v.
Proof.
  intros Hle H. induction Hle as [| fuel' _ IH]; [exact H |].
  apply while_loop_more_fuel. exact IH.
Qed.

Lemma for_loop_fuel_le (P X T r C : R) (fuel fuel' : nat)
  (guesses : list R) (x : returned) :
  (fuel <= fuel')%nat ->
  for_loop P X T r C fuel guesses = Some x ->
  for_loop P X T r C fuel' guesses = Some x.
Proof.
  intro Hle. induction guesses as [| g guesses IH]; cbn [for_loop];
    [trivial |].
  destruct (while_loop P X T r C fuel g 1) as [| b s'] eqn:Hg;
    [discriminate |].
  rewrite (while_loop_fuel_le _ _ _ _ _ _ _ _ _ _ _ Hle Hg).
  destruct b; [trivial | exact IH].
Qed.

(** ** Convergence *)

(** A pass at a candidate that passes the three checks and whose price
    error is below [good_bound] is the last one: the loop ends with
    [success = True] and [s] updated once more. *)
Lemma one_pass_converges (P X T r C : R) (fuel : nat) (s err : R) :
  good_bound <= err < bad_bound -> 0 < s -> 0.001 <= vega P X T r s ->
  Rabs (diff P X T r C s) < good_bound ->
  while_loop P X T r C (S fuel) s err
  = LoopEnd true (s - diff P X T r C s / vega P X T r s).
Proof.
  intros [Hge Hlt] Hs Hv Hd.
  rewrite while_loop_enter by exact Hge.
  assert (H : loop_body P X T r C s err
              = Next (s - diff P X T r C s / vega P X T r s)
                  (Rabs (diff P X T r C s)))
    by (apply loop_body_Next; auto).
  rewrite H. apply while_loop_exit. exact Hd.
Qed.

(** The Newton update of a converged candidate moves it by less than
    0.001. *)
Lemma last_update_small (x v : R) :
  0.001 <= v -> Rabs x < good_bound -> Rabs (x / v) < 0.001.
Proof.
  intros Hv Hx. unfold good_bound in Hx.
  unfold Rdiv. rewrite Rabs_mult, (Rabs_right (/ v)).
  - apply Rmult_lt_reg_r with v; [lra |].
    rewrite Rmult_assoc, Rinv_l by lra.
    pose proof (Rabs_pos x). nra.
  - apply Rle_ge. left. apply Rinv_0_lt_compat. lra.
Qed.

(** The Newton update of a converged candidate moves it by less than
    [0.000001 / vmin] when vega is at least [vmin]. *)
Lemma update_bound (x v vmin : R) :
  0 < vmin <= v -> Rabs x < good_bound -> Rabs (x / v) < 0.000001 / vmin.
Proof.
  intros [Hm Hv] Hx. unfold good_bound in Hx.
  unfold Rdiv. rewrite Rabs_mult, (Rabs_right (/ v)).
  - apply Rmult_lt_reg_r with v; [lra |].
    rewrite Rmult_assoc, Rinv_l by lra.
    pose proof (Rabs_pos x).
    assert (Hq : 0 < / vmin) by (apply Rinv_0_lt_compat; exact Hm).
    assert (Hone : 1 <= / vmin * v).
    { replace 1 with (/ vmin * vmin) by (apply Rinv_l; lra).
      apply Rmult_le_compat_l; lra. }
    nra.
  - apply Rle_ge. left. apply Rinv_0_lt_compat. lra.
Qed.

Lemma call_iv_exit_ReturnS (P X T r C : R) (fuel : nat) (v : R) :
  call_iv_exit P X T r C fuel = Some (ReturnS v) ->
  exists s : R,
    0 < s /\ 0.001 <= vega P X T r s
    /\ Rabs (diff P X T r C s) < good_bound
    /\ v = s - diff P X T r C s / vega P X T r s
    /\ Rabs (v - s) < 0.001.
Proof.
  intro H. apply for_loop_ReturnS in H.
  destruct H as (_ & g & _ & _ & _ & Hg).
  apply while_loop_success in Hg.
  destruct Hg as [[Herr _] | (s & Hs & Hv & Hd & ->)].
  - unfold good_bound in Herr. lra.
  - exists s. repeat split; try assumption.
    replace (s - diff P X T r C s / vega P X T r s - s)
      with (- (diff P X T r C s / vega P X T r s)) by ring.
    rewrite Rabs_Ropp. apply last_update_small; assumption.
Qed.

(** ** Bounds on the normal density *)

Lemma sqrt_2PI_bounds : 12 / 5 < sqrt (2 * PI) <= 3.
Proof.
  pose proof PI2_3_2 as Hlo. pose proof PI_4 as Hhi. split.
  - replace (12 / 5) with (sqrt (12 / 5 * (12 / 5)))
      by (apply sqrt_square; lra).
    apply sqrt_lt_1_alt. lra.
  - replace 3 with (sqrt (3 * 3)) by (apply sqrt_square; lra).
    apply sqrt_le_1_alt. lra.
Qed.

Lemma pdf_pos (x : R) : 0 < Norm.pdf x.
Proof.
  unfold Norm.pdf. apply Rdiv_lt_0_compat; [apply exp_pos |].
  pose proof sqrt_2PI_bounds. lra.
Qed.

Lemma pdf_upper (x : R) : Norm.pdf x <= 5 / 12.
Proof.
  unfold Norm.pdf. pose proof sqrt_2PI_bounds as [Hlo _].
  assert (He : exp (- (x * x) / 2) <= 1).
  { rewrite <- exp_0. destruct (Req_dec x 0) as [-> | Hx].
    - right. f_equal. lra.
    - left. apply exp_increasing. nra. }
  pose proof (exp_pos (- (x * x) / 2)) as Hpos.
  apply Rle_trans with (1 / sqrt (2 * PI)).
  - unfold Rdiv. apply Rmult_le_compat_r; [| exact He].
    left. apply Rinv_0_lt_compat. lra.
  - apply Rle_trans with (1 / (12 / 5)); [| lra].
    unfold Rdiv. apply Rmult_le_compat_l; [lra |].
    apply Rinv_le_contravar; lra.
Qed.

Lemma pdf_lower (x : R) : (1 - x * x / 2) / 3 <= Norm.pdf x.
Proof.
  unfold Norm.pdf. pose proof sqrt_2PI_bounds as [Hlo Hhi].
  pose proof (exp_ineq1_le (- (x * x) / 2)) as He.
  pose proof (exp_pos (- (x * x) / 2)) as Hpos.
  apply Rle_trans with (exp (- (x * x) / 2) / 3).
  - unfold Rdiv. apply Rmult_le_compat_r; lra.
  - unfold Rdiv. apply Rmult_le_compat_l; [lra |].
    apply Rinv_le_contravar; lra.
Qed.

Lemma inv_c_bounds : 1 / 3 <= inv_c < 5 / 12.
Proof.
  unfold inv_c. pose proof sqrt_2PI_bounds as [Hlo Hhi]. split.
  - replace (1 / 3) with (/ 3) by lra. apply Rinv_le_contravar; lra.
  - replace (5 / 12) with (/ (12 / 5)) by lra.
    apply Rinv_lt_contravar; [| lra]. apply Rmult_lt_0_compat; lra.
Qed.

Lemma pdf_exp (x : R) : Norm.pdf x = exp (- (x * x) / 2) * inv_c.
Proof. reflexivity. Qed.

Lemma pdf_ge_quadratic (x : R) : (1 - x * x / 2) * inv_c <= Norm.pdf x.
Proof.
  rewrite pdf_exp. pose proof inv_c_bounds as [Hk _].
  apply Rmult_le_compat_r; [lra |].
  pose proof (exp_ineq1_le (- (x * x) / 2)). lra.
Qed.

Lemma pdf_le_inv_c (x : R) : Norm.pdf x <= inv_c.
Proof.
  rewrite pdf_exp. pose proof inv_c_bounds as [Hk _].
  rewrite <- (Rmult_1_l inv_c) at 2.
  apply Rmult_le_compat_r; [lra |].
  rewrite <- exp_0. destruct (Req_dec x 0) as [-> | Hx].
  - right. f_equal. lra.
  - left. apply exp_increasing. nra.
Qed.

Lemma exp_monotone (x y : R) : x <= y -> exp x <= exp y.
Proof.
  intros [H | ->]; [left; apply exp_increasing; exact H | right; reflexivity].
Qed.

Lemma pdf_le_exp (t x : R) :
  t <= x * x / 2 -> Norm.pdf x <= exp (- t) * inv_c.
Proof.
  intro H. rewrite pdf_exp. pose proof inv_c_bounds as [Hk _].
  apply Rmult_le_compat_r; [lra |]. apply exp_monotone. lra.
Qed.

Lemma pdf_ge_exp (t x : R) :
  x * x / 2 <= t -> exp (- t) * inv_c <= Norm.pdf x.
Proof.
  intro H. rewrite pdf_exp. pose proof inv_c_bounds as [Hk _].
  apply Rmult_le_compat_r; [lra |]. apply exp_monotone. lra.
Qed.

Lemma exp_1_ge_2 : 2 <= exp 1.
Proof. pose proof (exp_ineq1_le 1). lra. Qed.

Lemma exp_minus_half : exp (- (1 / 2)) <= 2 / 3.
Proof.
  rewrite exp_Ropp. pose proof (exp_ineq1_le (1 / 2)).
  replace (2 / 3) with (/ (3 / 2)) by lra.
  apply Rinv_le_contravar; lra.
Qed.

Lemma exp_minus_2 : exp (- (2)) <= 1 / 4.
Proof.
  replace (- (2)) with (- (1 + 1)) by lra.
  rewrite exp_Ropp, exp_plus.
  pose proof exp_1_ge_2.
  replace (1 / 4) with (/ (2 * 2)) by lra.
  apply Rinv_le_contravar; nra.
Qed.

Lemma exp_minus_3 : 1 / 27 <= exp (- (3)).
Proof.
  replace (- (3)) with (- (1 + 1 + 1)) by lra.
  rewrite exp_Ropp, !exp_plus. pose proof exp_le_3. pose proof exp_1_ge_2.
  replace (1 / 27) with (/ (3 * 3 * 3)) by lra.
  apply Rinv_le_contravar; [nra |].
  assert (exp 1 * exp 1 <= 3 * 3) by nra. nra.
Qed.

Lemma exp_quarter : 5 / 4 <= exp (1 / 4).
Proof. pose proof (exp_ineq1_le (1 / 4)). lra. Qed.

Lemma exp_half_ge : 25 / 16 <= exp (1 / 2).
Proof.
  replace (1 / 2) with (1 / 4 + 1 / 4) by lra. rewrite exp_plus.
  pose proof exp_quarter. nra.
Qed.

Lemma exp_2_ge : 5.9 <= exp 2.
Proof.
  replace 2 with (1 / 2 + 1 / 2 + (1 / 2 + 1 / 2)) by lra.
  rewrite !exp_plus. pose proof exp_half_ge as H.
  assert (H2 : 25 / 16 * (25 / 16) <= exp (1 / 2) * exp (1 / 2)) by nra.
  nra.
Qed.

Lemma exp_neg_square (t : R) : 0 <= t -> exp (- t) <= 1 - t + t * t.
Proof.
  intro Ht. rewrite exp_Ropp.
  pose proof (exp_ineq1_le t) as He.
  apply Rle_trans with (/ (1 + t)).
  - apply Rinv_le_contravar; lra.
  - apply Rmult_le_reg_r with (1 + t); [lra |].
    rewrite Rinv_l by lra. nra.
Qed.

(** ** Vega is the derivative of the price *)

Lemma cdf_difference (a y : R) :
  Norm.cdf y - Norm.cdf a = RiemannInt (Norm.pdf_integrable a y).
Proof.
  unfold Norm.cdf.
  rewrite <- (RiemannInt_P26 (Norm.pdf_integrable a 0) (Norm.pdf_integrable 0 y)
                (Norm.pdf_integrable a y)).
  rewrite (RiemannInt_P8 (Norm.pdf_integrable a 0) (Norm.pdf_integrable 0 a)).
  ring.
Qed.

Lemma cdf_derivable (x : R) : derivable_pt_lim Norm.cdf x (Norm.pdf x).
Proof.
  assert (h : x - 1 <= x + 1) by lra.
  pose (C0 := fun (z : R) (_ : x - 1 <= z <= x + 1) => Norm.pdf_continuous z).
  pose proof (RiemannInt_P27 h C0 (x := x)) as Hprim.
  assert (Hx : x - 1 < x < x + 1) by lra.
  specialize (Hprim Hx).
  apply (derivable_pt_lim_locally_ext
           (fun y => Norm.cdf (x - 1) + primitive h (FTC_P1 h C0) y)
           Norm.cdf x (x - 1) (x + 1)); [exact Hx | |].
  - intros z [Hz1 Hz2]. unfold primitive.
    destruct (Rle_dec (x - 1) z) as [Hle1 | Hn]; [| lra].
    destruct (Rle_dec z (x + 1)) as [Hle2 | Hn]; [| lra].
    rewrite (RiemannInt_P5 (FTC_P1 h C0 Hle1 Hle2)
               (Norm.pdf_integrable (x - 1) z)).
    rewrite <- cdf_difference. ring.
  - replace (Norm.pdf x) with (0 + Norm.pdf x) by ring.
    apply (derivable_pt_lim_plus (fun _ => Norm.cdf (x - 1))
             (primitive h (FTC_P1 h C0))).
    + apply derivable_pt_lim_const.
    + exact Hprim.
Qed.

(** The distribution function is one half at 0, it is non-decreasing, and
    its increments are the density at an intermediate point times the
    distance. *)
Lemma cdf_0 : Norm.cdf 0 = 1 / 2.
Proof. unfold Norm.cdf. rewrite RiemannInt_P9. lra. Qed.

Lemma cdf_mean_value (a b : R) :
  a < b ->
  exists c : R,
    Norm.cdf b - Norm.cdf a = Norm.pdf c * (b - a) /\ a < c < b.
Proof.
  intro Hab. apply (MVT_cor2 Norm.cdf Norm.pdf a b Hab).
  intros c _. apply cdf_derivable.
Qed.

Lemma cdf_monotone (a b : R) : a <= b -> Norm.cdf a <= Norm.cdf b.
Proof.
  intros [Hlt | ->]; [| lra].
  destruct (cdf_mean_value a b Hlt) as (c & Hc & _).
  pose proof (pdf_pos c). nra.
Qed.

Section Greeks.

Variables P X T r : R.
Hypothesis P_pos : 0 < P.
Hypothesis X_pos : 0 < X.
Hypothesis T_pos : 0 < T.

Lemma sqrt_T_pos : 0 < sqrt T.
Proof. apply sqrt_lt_R0. exact T_pos. Qed.

Lemma d1_eq (s : R) :
  s <> 0 -> fst (d P X T r s) = moneyness P X T r / s + sqrt T / 2 * s.
Proof.
  intro Hs. pose proof sqrt_T_pos as HT.
  unfold d, moneyness. cbn [fst].
  assert (HT2 : T = sqrt T * sqrt T) by (symmetry; apply sqrt_sqrt; lra).
  set (q := sqrt T) in *. set (m := ln (P / X)). clearbody q m.
  rewrite HT2. field. split; lra.
Qed.

Lemma d2_eq (s : R) :
  s <> 0 -> snd (d P X T r s) = moneyness P X T r / s - sqrt T / 2 * s.
Proof.
  intro Hs. pose proof sqrt_T_pos as HT.
  unfold d, moneyness. cbn [snd].
  assert (HT2 : T = sqrt T * sqrt T) by (symmetry; apply sqrt_sqrt; lra).
  set (q := sqrt T) in *. set (m := ln (P / X)). clearbody q m.
  rewrite HT2. field. split; lra.
Qed.

Lemma call_eq (s : R) :
  call P X T r s
  = P * Norm.cdf (fst (d P X T r s))
    - X * exp (- r * T) * Norm.cdf (snd (d P X T r s)).
Proof. reflexivity. Qed.

Lemma discounted_density (s : R) :
  s <> 0 ->
  X * exp (- r * T) * Norm.pdf (snd (d P X T r s))
  = P * Norm.pdf (fst (d P X T r s)).
Proof.
  intro Hs. pose proof sqrt_T_pos as HT.
  rewrite d1_eq, d2_eq by exact Hs. unfold Norm.pdf.
  set (a := moneyness P X T r / s). set (b := sqrt T / 2 * s).
  assert (Hab : 2 * (a * b) = ln P - ln X + r * T).
  { assert (Hln : ln (P / X) = ln P - ln X).
    { unfold Rdiv. rewrite ln_mult, ln_Rinv; try assumption; [ring |].
      apply Rinv_0_lt_compat; assumption. }
    unfold a, b, moneyness. rewrite Hln. field. split; lra. }
  rewrite <- (exp_ln X) at 1 by exact X_pos.
  rewrite <- (exp_ln P) at 1 by exact P_pos.
  unfold Rdiv. rewrite <- !Rmult_assoc. f_equal.
  rewrite <- !exp_plus. f_equal. lra.
Qed.

Lemma d1_derivable (m b s : R) :
  s <> 0 ->
  derivable_pt_lim (fun u => m / u + b * u) s (- m / (s * s) + b).
Proof.
  intro Hs.
  apply (derivable_pt_lim_plus (fun u => m / u) (fun u => b * u)).
  - pose proof (derivable_pt_lim_div (fun _ => m) id s 0 1
                  (derivable_pt_lim_const m s) (derivable_pt_lim_id s) Hs)
      as H.
    replace (- m / (s * s)) with ((0 * id s - 1 * m) / (id s)²)
      by (unfold id, Rsqr; field; exact Hs).
    eapply derivable_pt_lim_ext; [| exact H].
    intro z. reflexivity.
  - pose proof (derivable_pt_lim_scal id b s 1 (derivable_pt_lim_id s)) as H.
    rewrite Rmult_1_r in H.
    eapply derivable_pt_lim_ext; [| exact H].
    intro z. reflexivity.
Qed.

(** Vega is the derivative of the call price in the volatility. *)
Lemma call_derivable (s : R) :
  0 < s -> derivable_pt_lim (call P X T r) s (vega P X T r s).
Proof.
  intro Hs. pose proof sqrt_T_pos as HT.
  set (m := moneyness P X T r).
  set (b := sqrt T / 2).
  set (k := X * exp (- r * T)).
  assert (Hs0 : s <> 0) by lra.
  pose proof (derivable_pt_lim_comp _ Norm.cdf s _ _
                (d1_derivable m b s Hs0) (cdf_derivable _)) as H1.
  pose proof (derivable_pt_lim_comp _ Norm.cdf s _ _
                (d1_derivable m (- b) s Hs0) (cdf_derivable _)) as H2.
  pose proof (derivable_pt_lim_minus _ _ s _ _
                (derivable_pt_lim_scal _ P s _ H1)
                (derivable_pt_lim_scal _ k s _ H2)) as H.
  apply (derivable_pt_lim_locally_ext _ (call P X T r) s (s / 2) (2 * s)) in H;
    [| lra |].
  - replace (vega P X T r s)
      with (P * (Norm.pdf (m / s + b * s) * (- m / (s * s) + b))
            - k * (Norm.pdf (m / s + - b * s) * (- m / (s * s) + - b)));
      [exact H |].
    pose proof (discounted_density s Hs0) as Hk.
    rewrite d1_eq, d2_eq in Hk by exact Hs0. fold m b k in Hk.
    unfold vega. rewrite d1_eq by exact Hs0. fold m b.
    replace (m / s + - b * s) with (m / s - b * s) by ring.
    set (p1 := Norm.pdf (m / s + b * s)) in *.
    set (p2 := Norm.pdf (m / s - b * s)) in *.
    replace (k * (p2 * (- m / (s * s) + - b)))
      with (k * p2 * (- m / (s * s) + - b)) by ring.
    rewrite Hk. unfold b. field. exact Hs0.
  - intros z [Hz1 Hz2]. assert (Hz : z <> 0) by lra.
    rewrite call_eq, d1_eq, d2_eq by exact Hz.
    unfold minus_fct, mult_real_fct, comp. fold m b k.
    replace (m / z + - b * z) with (m / z - b * z) by ring.
    reflexivity.
Qed.

End Greeks.

Lemma inverse_cube_derivable (m u : R) :
  u <> 0 ->
  derivable_pt_lim (fun x => m / (x * x * x)) u
    (- (3 * m) / (u * u * u * u)).
Proof.
  intro Hu.
  assert (Hcube : derivable_pt_lim (fun x => x * x * x) u (3 * (u * u))).
  { pose proof (derivable_pt_lim_mult _ _ u _ _
                  (derivable_pt_lim_mult _ _ u _ _
                     (derivable_pt_lim_id u) (derivable_pt_lim_id u))
                  (derivable_pt_lim_id u)) as H.
    replace (3 * (u * u)) with ((1 * id u + id u * 1) * id u
                                + (id * id)%F u * 1)
      by (unfold mult_fct, id; ring).
    eapply derivable_pt_lim_ext; [| exact H].
    intro z. reflexivity. }
  pose proof (derivable_pt_lim_div (fun _ => m) (fun x => x * x * x) u _ _
                (derivable_pt_lim_const m u) Hcube) as H.
  assert (Hne : u * u * u <> 0)
    by (repeat apply Rmult_integral_contrapositive_currified; exact Hu).
  specialize (H Hne).
  replace (- (3 * m) / (u * u * u * u))
    with ((0 * (u * u * u) - 3 * (u * u) * m) / (u * u * u)²)
    by (unfold Rsqr; field; exact Hu).
  eapply derivable_pt_lim_ext; [| exact H].
  intro z. reflexivity.
Qed.

(** Where vega is at least [vmin] between two volatilities, their prices
    differ by at least [vmin] times their distance. *)
Lemma volatility_gap (P X T r s s0 vmin : R) :
  0 < P -> 0 < X -> 0 < T -> 0 < s -> 0 < s0 -> 0 <= vmin ->
  (forall u : R, Rmin s s0 <= u <= Rmax s s0 -> vmin <= vega P X T r u) ->
  Rabs (s0 - s) * vmin <= Rabs (call P X T r s0 - call P X T r s).
Proof.
  intros HP HX HT Hs Hs0 Hvm Hv.
  assert (Hmvt : forall a b : R,
             0 < a -> a < b ->
             (forall u : R, a <= u <= b -> vmin <= vega P X T r u) ->
             (b - a) * vmin <= call P X T r b - call P X T r a).
  { intros a b Ha Hab Hu.
    destruct (MVT_cor2 (call P X T r) (vega P X T r) a b Hab)
      as (c & Hc & Hr).
    - intros u Hu'. apply call_derivable; try assumption. lra.
    - rewrite Hc. specialize (Hu c). nra. }
  destruct (Rtotal_order s s0) as [Hlt | [-> | Hgt]].
  - rewrite Rmin_left, Rmax_right in Hv by lra.
    pose proof (Hmvt s s0 Hs Hlt Hv) as H.
    rewrite !Rabs_right; nra.
  - replace (s0 - s0) with 0 by ring.
    rewrite Rabs_R0, Rmult_0_l. apply Rabs_pos.
  - rewrite Rmin_right, Rmax_left in Hv by lra.
    pose proof (Hmvt s0 s Hs0 Hgt Hv) as H.
    rewrite !Rabs_left1; nra.
Qed.

(** ** Inputs on which the run is known *)

(** When the spot price is so small that [P * sqrt T < 0.002], vega is
    below [0.001] at every volatility and every guess is given up in its
    first pass. *)
Lemma flat_vega (P X T r s : R) :
  0 <= P -> P * sqrt T < 0.002 -> vega P X T r s < 0.001.
Proof.
  intros HP Hflat. unfold vega.
  pose proof (pdf_upper (fst (d P X T r s))) as Hup.
  pose proof (pdf_pos (fst (d P X T r s))) as Hpos.
  pose proof (sqrt_pos T) as HT.
  replace (P * Norm.pdf (fst (d P X T r s)) * sqrt T)
    with (P * sqrt T * Norm.pdf (fst (d P X T r s))) by ring.
  assert (0 <= P * sqrt T) by (apply Rmult_le_pos; assumption).
  nra.
Qed.

Lemma flat_vega_fails (P X T r C : R) (fuel : nat) (g : R) :
  0 <= P -> P * sqrt T < 0.002 ->
  while_loop P X T r C (S fuel) g 1 = LoopEnd false g.
Proof.
  intros HP Hflat.
  rewrite while_loop_enter by apply good_bound_lt_1.
  assert (H : loop_body P X T r C g 1 = Break).
  { apply loop_body_Break. right. right. apply flat_vega; assumption. }
  rewrite H. reflexivity.
Qed.


(** When the observed price is the model price at the first guess and vega
    is not flat there, the first pass ends the search. *)
Lemma exact_guess_converges (P X T r : R) (fuel : nat) (g : R) :
  0 < g -> 0.001 <= vega P X T r g ->
  while_loop P X T r (call P X T r g) (S fuel) g 1 = LoopEnd true g.
Proof.
  intros Hg Hv.
  rewrite while_loop_enter by apply good_bound_lt_1.
  assert (Hd : diff P X T r (call P X T r g) g = 0) by (unfold diff; ring).
  assert (H : loop_body P X T r (call P X T r g) g 1 = Next g 0).
  { apply loop_body_Next. rewrite Hd. unfold bad_bound.
    repeat split; try lra.
    symmetry. apply Rabs_R0. }
  rewrite H. apply while_loop_exit. unfold good_bound. lra.
Qed.

Lemma vega_at_the_money : 0.001 <= vega 100 100 1 0 0.05.
Proof.
  unfold vega, d. cbn [fst].
  replace (100 / 100) with 1 by lra. rewrite ln_1, sqrt_1.
  replace ((0 + (0 + 0.05 ^ 2 / 2) * 1) / (0.05 * 1)) with 0.025
    by (simpl; lra).
  pose proof (pdf_lower 0.025). lra.
Qed.

Lemma at_the_money_run (fuel : nat) :
  call_iv 100 100 1 0 (call 100 100 1 0 0.05) (S fuel) = Some 0.05.
Proof.
  unfold call_iv, call_iv_exit.
  destruct s_list_head as [rest ->]. cbn [for_loop].
  rewrite exact_guess_converges by (lra || exact vega_at_the_money).
  reflexivity.
Qed.

(** ** The run and its events *)

Section Traced.

Variables P X T r C : R.

Lemma loop_body_traced_fst (s err : R) :
  fst (loop_body_traced P X T r C s err) = loop_body P X T r C s err.
Proof.
  unfold loop_body, loop_body_traced.
  destruct (Rge_b err bad_bound || Rle_b s 0)%bool; [reflexivity |].
  cbv beta iota zeta delta [d].
  match goal with
  | |- context [Rlt_b ?v 0.001] => destruct (Rlt_b v 0.001)
  end; reflexivity.
Qed.

Lemma while_loop_traced_fst (fuel : nat) :
  forall s err : R,
    fst (while_loop_traced P X T r C fuel s err)
    = while_loop P X T r C fuel s err.
Proof.
  induction fuel as [| fuel IH]; intros s err;
    cbn [while_loop while_loop_traced];
    destruct (Rge_b err good_bound); try reflexivity.
  rewrite <- loop_body_traced_fst.
  destruct (loop_body_traced P X T r C s err) as [[| s' err'] events];
    cbn [fst]; [reflexivity |].
  rewrite <- IH.
  destruct (while_loop_traced P X T r C fuel s' err'). reflexivity.
Qed.

Lemma for_loop_traced_fst (fuel : nat) (guesses : list R) :
  fst (for_loop_traced P X T r C fuel guesses)
  = for_loop P X T r C fuel guesses.
Proof.
  induction guesses as [| g guesses IH]; cbn [for_loop for_loop_traced];
    [reflexivity |].
  rewrite <- while_loop_traced_fst.
  destruct (while_loop_traced P X T r C fuel g 1) as [[| [|] s'] events];
    cbn [fst]; try reflexivity.
  rewrite <- IH.
  destruct (for_loop_traced P X T r C fuel guesses). reflexivity.
Qed.

Hypothesis X_pos : 0 < X.
Hypothesis T_pos : 0 < T.

Lemma d_events_safe (s : R) :
  0 < s -> Forall event_safe (d_events P X T r s).
Proof.
  intro Hs. pose proof (sqrt_lt_R0 T T_pos) as HT.
  unfold d_events. repeat constructor; cbn [event_safe]; try lra.
  apply Rgt_not_eq. apply Rmult_lt_0_compat; assumption.
Qed.

Lemma loop_body_traced_safe (s err : R) :
  Forall event_safe (snd (loop_body_traced P X T r C s err)).
Proof.
  unfold loop_body_traced.
  destruct (Rge_b err bad_bound) eqn:Hbad; cbn [orb]; [constructor |].
  destruct (Rle_b s 0) eqn:Hs; [constructor |].
  apply Rle_b_false in Hs.
  cbv beta iota zeta delta [d].
  assert (He : Forall event_safe (call_events P X T r s ++ d_events P X T r s)).
  { apply Forall_app. split; [| apply d_events_safe; exact Hs].
    unfold call_events. constructor; [exact Hs |].
    apply d_events_safe; exact Hs. }
  match goal with
  | |- context [Rlt_b ?v 0.001] => destruct (Rlt_b v 0.001) eqn:Hv
  end; cbn [snd]; [exact He |].
  apply Rlt_b_false in Hv.
  apply Forall_app. split; [exact He |].
  constructor; [| constructor]. cbn [event_safe]. lra.
Qed.

Lemma while_loop_traced_safe (fuel : nat) :
  forall s err : R,
    Forall event_safe (snd (while_loop_traced P X T r C fuel s err)).
Proof.
  induction fuel as [| fuel IH]; intros s err; cbn [while_loop_traced];
    destruct (Rge_b err good_bound); try constructor.
  pose proof (loop_body_traced_safe s err) as Hbody.
  destruct (loop_body_traced P X T r C s err) as [[| s' err'] events];
    cbn [snd] in *; [exact Hbody |].
  specialize (IH s' err').
  destruct (while_loop_traced P X T r C fuel s' err') as [e events'].
  cbn [snd] in *. apply Forall_app. split; assumption.
Qed.

Lemma for_loop_traced_safe (fuel : nat) (guesses : list R) :
  Forall event_safe (snd (for_loop_traced P X T r C fuel guesses)).
Proof.
  induction guesses as [| g guesses IH]; cbn [for_loop_traced];
    [constructor |].
  pose proof (while_loop_traced_safe fuel g 1) as Hg.
  destruct (while_loop_traced P X T r C fuel g 1) as [[| [|] s'] events];
    cbn [snd] in *; try exact Hg.
  destruct (for_loop_traced P X T r C fuel guesses) as [x events'].
  cbn [snd] in *. apply Forall_app. split; assumption.
Qed.

End Traced.

Lemma call_iv_traced_fst (P X T r C : R) (fuel : nat) :
  fst (call_iv_traced P X T r C fuel) = call_iv P X T r C fuel.
Proof.
  unfold call_iv_traced, call_iv, call_iv_exit.
  rewrite <- for_loop_traced_fst.
  destruct (for_loop_traced P X T r C fuel s_list). reflexivity.
Qed.

Lemma loop_body_traced_invokes (P X T r C s err : R) :
  err < bad_bound -> 0 < s ->
  In (Invoke_call s) (snd (loop_body_traced P X T r C s err))
  /\ In (Invoke_d s) (snd (loop_body_traced P X T r C s err)).
Proof.
  intros Herr Hs. unfold loop_body_traced.
  apply Rge_b_false in Herr. apply Rle_b_false in Hs.
  rewrite Herr, Hs. cbn [orb].
  cbv beta iota zeta delta [d].
  match goal with
  | |- context [Rlt_b ?v 0.001] => destruct (Rlt_b v 0.001)
  end; cbn [snd]; rewrite ?in_app_iff; cbn [call_events d_events In]; tauto.
Qed.

(** ** A run that converges to a negative value *)

Lemma sqrt_T_low : sqrt T_low = 1 / 100.
Proof.
  unfold T_low. replace (1 / 10000) with (1 / 100 * (1 / 100)) by lra.
  apply sqrt_square. lra.
Qed.

Lemma d1_low (u : R) :
  u <> 0 -> fst (d 10 10 T_low r_low u) = 1 / 50000 / u + u / 200.
Proof.
  intro Hu. rewrite d1_eq by (unfold T_low; lra || exact Hu).
  unfold moneyness. rewrite sqrt_T_low.
  replace (10 / 10) with 1 by lra. rewrite ln_1.
  unfold r_low, T_low. field. exact Hu.
Qed.

Lemma vega_low (u : R) :
  u <> 0 ->
  vega 10 10 T_low r_low u = Norm.pdf (1 / 50000 / u + u / 200) / 10.
Proof.
  intro Hu. unfold vega. rewrite d1_low by exact Hu.
  rewrite sqrt_T_low. lra.
Qed.

Lemma vega_low_le (u : R) : 0 < u -> vega 10 10 T_low r_low u <= inv_c / 10.
Proof.
  intro Hu. rewrite vega_low by lra.
  pose proof (pdf_le_inv_c (1 / 50000 / u + u / 200)). lra.
Qed.

Lemma vega_low_guess :
  (1 - 0.00000022) * (inv_c / 10) <= vega 10 10 T_low r_low 0.05.
Proof.
  rewrite vega_low by lra.
  replace (1 / 50000 / 0.05 + 0.05 / 200) with 0.00065 by lra.
  pose proof (pdf_ge_quadratic 0.00065) as H.
  pose proof inv_c_bounds as [Hk _]. nra.
Qed.

Lemma vega_low_sigma :
  0.001 <= vega 10 10 T_low r_low 0.00001
  /\ vega 10 10 T_low r_low 0.00001 <= 1 / 4 * (inv_c / 10).
Proof.
  rewrite vega_low by lra.
  replace (1 / 50000 / 0.00001 + 0.00001 / 200) with 2.00000005 by lra.
  pose proof inv_c_bounds as [Hk _]. split.
  - pose proof (pdf_ge_exp 3 2.00000005) as H.
    pose proof exp_minus_3 as H3.
    assert (Hx : 2.00000005 * 2.00000005 / 2 <= 3) by lra.
    specialize (H Hx).
    assert (1 / 27 * (1 / 3) <= exp (- (3)) * inv_c)
      by (apply Rmult_le_compat; lra).
    lra.
  - pose proof (pdf_le_exp 2 2.00000005) as H.
    pose proof exp_minus_2 as H2.
    assert (Hx : 2 <= 2.00000005 * 2.00000005 / 2) by lra.
    specialize (H Hx).
    assert (exp (- (2)) * inv_c <= 1 / 4 * inv_c)
      by (apply Rmult_le_compat_r; lra).
    lra.
Qed.

Lemma vega_low_near (c : R) :
  0.00001 < c < 0.00002 ->
  vega 10 10 T_low r_low c <= 2 / 3 * (inv_c / 10).
Proof.
  intros [Hc1 Hc2]. rewrite vega_low by lra.
  pose proof inv_c_bounds as [Hk _].
  assert (Hq : 1 < 1 / 50000 / c).
  { apply Rmult_lt_reg_r with c; [lra |]. field_simplify; lra. }
  pose proof (pdf_le_exp (1 / 2) (1 / 50000 / c + c / 200)) as H.
  pose proof exp_minus_half as Hh.
  assert (Hx : 1 / 2 <= (1 / 50000 / c + c / 200)
                         * (1 / 50000 / c + c / 200) / 2) by nra.
  specialize (H Hx).
  assert (exp (- (1 / 2)) * inv_c <= 2 / 3 * inv_c)
    by (apply Rmult_le_compat_r; lra).
  lra.
Qed.

Lemma vega_low_ge (c : R) :
  0.00001 < c < 0.05 ->
  (1 - 0.00000013125) * (inv_c / 10)
  - inv_c / 10 * 0.0000000002 / (c * c)
  <= vega 10 10 T_low r_low c.
Proof.
  intros [Hc1 Hc2]. rewrite vega_low by lra.
  pose proof inv_c_bounds as [Hk _].
  pose proof (pdf_ge_quadratic (1 / 50000 / c + c / 200)) as H.
  assert (Hx : (1 / 50000 / c + c / 200) * (1 / 50000 / c + c / 200)
               = 1 / 2500000000 / (c * c) + 1 / 5000000 + c * c / 40000)
    by (field; lra).
  rewrite Hx in H. clear Hx.
  assert (Hq : 0 < / (c * c)) by (apply Rinv_0_lt_compat; nra).
  unfold Rdiv in *. set (q := / (c * c)) in *. clearbody q.
  assert (Hcc : c * c <= 0.0025) by nra.
  nra.
Qed.

Lemma call_low_derivable (c : R) :
  0 < c ->
  derivable_pt_lim (call 10 10 T_low r_low) c (vega 10 10 T_low r_low c).
Proof.
  intro Hc. apply call_derivable; try lra. unfold T_low. lra.
Qed.

(** Between 0.00001 and 0.05 the price rises by less than the tangent at
    0.05 predicts: vega is well below its value at 0.05 on the first
    stretch. *)
Lemma price_rise_upper :
  call 10 10 T_low r_low 0.05 - call 10 10 T_low r_low 0.00001
  <= 2 / 3 * (inv_c / 10) * 0.00001 + inv_c / 10 * (0.05 - 0.00002).
Proof.
  destruct (MVT_cor2 (call 10 10 T_low r_low) (vega 10 10 T_low r_low)
              0.00001 0.00002) as (c1 & Hc1 & Hr1); [lra | |].
  { intros c Hc. apply call_low_derivable. lra. }
  destruct (MVT_cor2 (call 10 10 T_low r_low) (vega 10 10 T_low r_low)
              0.00002 0.05) as (c2 & Hc2 & Hr2); [lra | |].
  { intros c Hc. apply call_low_derivable. lra. }
  pose proof (vega_low_near c1 Hr1) as H1.
  assert (H2 : vega 10 10 T_low r_low c2 <= inv_c / 10)
    by (apply vega_low_le; lra).
  nra.
Qed.

(** It rises by almost as much, though: vega falls short of its value
    at 0.05 by a term in [1 / (u * u)] only. *)
Lemma price_rise_lower :
  (1 - 0.00000013125) * (inv_c / 10) * (0.05 - 0.00001)
  - inv_c / 10 * 0.0000000002 * (100000 - 20)
  <= call 10 10 T_low r_low 0.05 - call 10 10 T_low r_low 0.00001.
Proof.
  set (m := inv_c / 10 * 0.0000000002).
  set (b := (1 - 0.00000013125) * (inv_c / 10)).
  destruct (MVT_cor2
              (fun u => call 10 10 T_low r_low u - (m / u + b * u))
              (fun u => vega 10 10 T_low r_low u - (- m / (u * u) + b))
              0.00001 0.05) as (c & Hc & Hr); [lra | |].
  { intros c Hc.
    apply (derivable_pt_lim_minus (call 10 10 T_low r_low)
             (fun u => m / u + b * u)).
    - apply call_low_derivable. lra.
    - apply d1_derivable. lra. }
  pose proof (vega_low_ge c Hr) as Hv. fold m b in Hv.
  assert (Hpos : 0 <= vega 10 10 T_low r_low c - (- m / (c * c) + b)).
  { unfold Rdiv in *. lra. }
  assert (Hrise : 0 <= (vega 10 10 T_low r_low c - (- m / (c * c) + b))
                       * (0.05 - 0.00001))
    by (apply Rmult_le_pos; lra).
  rewrite <- Hc in Hrise.
  replace (m / 0.05) with (m * 20) in Hrise by lra.
  replace (m / 0.00001) with (m * 100000) in Hrise by lra.
  lra.
Qed.

Lemma diff_low_first :
  diff 10 10 T_low r_low C_low 0.05
  = vega 10 10 T_low r_low 0.05 * (0.05 - 0.00001).
Proof. unfold diff, C_low. ring. Qed.

Lemma diff_low_second :
  diff 10 10 T_low r_low C_low 0.00001
  = vega 10 10 T_low r_low 0.05 * (0.05 - 0.00001)
    - (call 10 10 T_low r_low 0.05 - call 10 10 T_low r_low 0.00001).
Proof. unfold diff, C_low. ring. Qed.

Lemma diff_low_second_bounds :
  0.00001 * vega 10 10 T_low r_low 0.00001
  < diff 10 10 T_low r_low C_low 0.00001 < 0.000001.
Proof.
  rewrite diff_low_second.
  pose proof inv_c_bounds as [Hk1 Hk2].
  pose proof vega_low_guess as Hg.
  pose proof (vega_low_le 0.05) as Hg'.
  pose proof vega_low_sigma as [_ Hs].
  pose proof price_rise_upper as Hup.
  pose proof price_rise_lower as Hlo.
  split; lra.
Qed.

Lemma low_run :
  while_loop 10 10 T_low r_low C_low 2 0.05 1
  = LoopEnd true
      (0.00001 - diff 10 10 T_low r_low C_low 0.00001
                 / vega 10 10 T_low r_low 0.00001).
Proof.
  pose proof inv_c_bounds as [Hk1 Hk2].
  pose proof vega_low_guess as Hg.
  pose proof (vega_low_le 0.05) as Hg'.
  pose proof vega_low_sigma as [Hs _].
  pose proof diff_low_second_bounds as [Hd1 Hd2].
  rewrite while_loop_enter by apply good_bound_lt_1.
  assert (H1 : loop_body 10 10 T_low r_low C_low 0.05 1
               = Next 0.00001 (vega 10 10 T_low r_low 0.05 * (0.05 - 0.00001))).
  { apply loop_body_Next. rewrite diff_low_first. unfold bad_bound.
    repeat split; try lra.
    - field. lra.
    - rewrite Rabs_right; [reflexivity | nra]. }
  rewrite H1.
  apply one_pass_converges; try lra.
  - unfold good_bound, bad_bound. split; nra.
  - rewrite Rabs_right; [unfold good_bound; lra | nra].
Qed.

Lemma low_run_negative :
  0.00001 - diff 10 10 T_low r_low C_low 0.00001
            / vega 10 10 T_low r_low 0.00001 < 0.
Proof.
  pose proof vega_low_sigma as [Hs _].
  pose proof diff_low_second_bounds as [Hd1 _].
  assert (0.00001 < diff 10 10 T_low r_low C_low 0.00001
                    / vega 10 10 T_low r_low 0.00001).
  { apply Rmult_lt_reg_r with (vega 10 10 T_low r_low 0.00001); [lra |].
    unfold Rdiv. rewrite Rmult_assoc, Rinv_l by lra. lra. }
  lra.
Qed.

(** *** The price at the value returned

    Sharper bounds on the same run: the value returned is below -0.00005,
    and the price of the model there is negative up to the discount on the
    strike, while the observed price is not. *)

Lemma vega_low_sigma_upper :
  vega 10 10 T_low r_low 0.00001 * 5.9 <= inv_c / 10.
Proof.
  rewrite vega_low by lra.
  replace (1 / 50000 / 0.00001 + 0.00001 / 200) with 2.00000005 by lra.
  pose proof inv_c_bounds as [Hk _].
  pose proof (pdf_le_exp 2 2.00000005) as H.
  assert (Hx : 2 <= 2.00000005 * 2.00000005 / 2) by lra.
  specialize (H Hx). rewrite exp_Ropp in H.
  pose proof exp_2_ge as H2.
  assert (Hinv : / exp 2 * 5.9 <= 1).
  { apply Rmult_le_reg_r with (exp 2); [lra |].
    rewrite Rmult_assoc, (Rmult_comm 5.9), <- Rmult_assoc, Rinv_l by lra.
    lra. }
  assert (/ exp 2 * inv_c * 5.9 <= inv_c) by nra.
  lra.
Qed.

Lemma vega_low_near_sharp (c : R) :
  0.00001 <= c <= 0.00002 ->
  vega 10 10 T_low r_low c <= 16 / 25 * (inv_c / 10).
Proof.
  intros [Hc1 Hc2]. rewrite vega_low by lra.
  pose proof inv_c_bounds as [Hk _].
  assert (Hq : 1 <= 1 / 50000 / c).
  { apply Rmult_le_reg_r with c; [lra |]. field_simplify; lra. }
  pose proof (pdf_le_exp (1 / 2) (1 / 50000 / c + c / 200)) as H.
  assert (Hx : 1 / 2 <= (1 / 50000 / c + c / 200)
                         * (1 / 50000 / c + c / 200) / 2) by nra.
  specialize (H Hx). rewrite exp_Ropp in H.
  pose proof exp_half_ge as Hh.
  assert (Hinv : / exp (1 / 2) <= 16 / 25).
  { replace (16 / 25) with (/ (25 / 16)) by lra.
    apply Rinv_le_contravar; lra. }
  assert (/ exp (1 / 2) * inv_c <= 16 / 25 * inv_c)
    by (apply Rmult_le_compat_r; lra).
  lra.
Qed.

Lemma vega_low_upper_poly (u : R) :
  0 < u ->
  vega 10 10 T_low r_low u
  <= inv_c / 10
     * (1 - 1 / 5000000000 / (u * u)
        + 1 / 5000000000 / (u * u) * (1 / 5000000000 / (u * u))).
Proof.
  intro Hu. rewrite vega_low by lra.
  pose proof inv_c_bounds as [Hk _].
  set (y := 1 / 5000000000 / (u * u)).
  assert (Hy : 0 <= y).
  { unfold y. apply Rlt_le. apply Rdiv_lt_0_compat; nra. }
  assert (Hx : y <= (1 / 50000 / u + u / 200) * (1 / 50000 / u + u / 200) / 2).
  { assert (Heq : (1 / 50000 / u + u / 200) * (1 / 50000 / u + u / 200) / 2
                  = y + 1 / 10000000 + u * u / 80000)
      by (unfold y; field; lra).
    rewrite Heq. nra. }
  pose proof (pdf_le_exp y _ Hx) as H.
  pose proof (exp_neg_square y Hy) as He.
  assert (exp (- y) * inv_c <= (1 - y + y * y) * inv_c)
    by (apply Rmult_le_compat_r; lra).
  lra.
Qed.

(** Between 0.00002 and 0.05 vega stays below
    [inv_c / 10 * (1 - y + y * y)] with [y = 2e-10 / (u * u)], whose
    primitive is explicit. *)
Lemma price_rise_upper_sharp :
  call 10 10 T_low r_low 0.05 - call 10 10 T_low r_low 0.00001
  <= inv_c / 10 * (0.05 - 0.0000219).
Proof.
  pose proof inv_c_bounds as [Hk _].
  destruct (MVT_cor2 (call 10 10 T_low r_low) (vega 10 10 T_low r_low)
              0.00001 0.00002) as (c1 & Hc1 & Hr1); [lra | |].
  { intros c Hc. apply call_low_derivable. lra. }
  assert (H1 : vega 10 10 T_low r_low c1 <= 16 / 25 * (inv_c / 10))
    by (apply vega_low_near_sharp; lra).
  set (b := inv_c / 10).
  set (m1 := inv_c / 10 * (1 / 5000000000)).
  set (m3 := inv_c / 10 * (1 / 5000000000 * (1 / 5000000000)) / 3).
  destruct (MVT_cor2
              (fun u => call 10 10 T_low r_low u
                        - ((m1 / u + b * u) - m3 / (u * u * u)))
              (fun u => vega 10 10 T_low r_low u
                        - ((- m1 / (u * u) + b)
                           - - (3 * m3) / (u * u * u * u)))
              0.00002 0.05) as (c2 & Hc2 & Hr2); [lra | |].
  { intros c Hc.
    apply (derivable_pt_lim_minus (call 10 10 T_low r_low)
             (fun u => (m1 / u + b * u) - m3 / (u * u * u))).
    - apply call_low_derivable. lra.
    - apply (derivable_pt_lim_minus (fun u => m1 / u + b * u)
               (fun u => m3 / (u * u * u))).
      + apply d1_derivable. lra.
      + apply inverse_cube_derivable. lra. }
  pose proof (vega_low_upper_poly c2) as Hv.
  assert (Hneg : vega 10 10 T_low r_low c2
                 - ((- m1 / (c2 * c2) + b)
                    - - (3 * m3) / (c2 * c2 * c2 * c2)) <= 0).
  { assert (Heq : (- m1 / (c2 * c2) + b)
                  - - (3 * m3) / (c2 * c2 * c2 * c2)
                  = inv_c / 10
                    * (1 - 1 / 5000000000 / (c2 * c2)
                       + 1 / 5000000000 / (c2 * c2)
                         * (1 / 5000000000 / (c2 * c2))))
      by (unfold m1, m3, b; field; lra).
    rewrite Heq. specialize (Hv ltac:(lra)). lra. }
  assert (Hrise : (vega 10 10 T_low r_low c2
                   - ((- m1 / (c2 * c2) + b)
                      - - (3 * m3) / (c2 * c2 * c2 * c2)))
                  * (0.05 - 0.00002) <= 0) by nra.
  rewrite <- Hc2 in Hrise.
  replace (m1 / 0.05) with (m1 * 20) in Hrise by lra.
  replace (m1 / 0.00002) with (m1 * 50000) in Hrise by lra.
  replace (m3 / (0.05 * 0.05 * 0.05)) with (m3 * 8000) in Hrise by lra.
  replace (m3 / (0.00002 * 0.00002 * 0.00002))
    with (m3 * 125000000000000) in Hrise by lra.
  assert (Hn : vega 10 10 T_low r_low c1 * (0.00002 - 0.00001)
               <= 16 / 25 * (inv_c / 10) * 0.00001) by nra.
  unfold m1, m3, b in *. lra.
Qed.

Lemma diff_low_second_lower :
  0.0000118 * (inv_c / 10) <= diff 10 10 T_low r_low C_low 0.00001.
Proof.
  rewrite diff_low_second.
  pose proof inv_c_bounds as [Hk1 Hk2].
  pose proof vega_low_guess as Hg.
  pose proof price_rise_upper_sharp as Hup.
  lra.
Qed.

(** The value returned by the run lies between -0.001 and -0.00005. *)
Lemma low_run_value_bounds :
  - 0.001 < 0.00001 - diff 10 10 T_low r_low C_low 0.00001
                      / vega 10 10 T_low r_low 0.00001
  <= - 0.00005.
Proof.
  pose proof inv_c_bounds as [Hk1 Hk2].
  pose proof vega_low_sigma as [Hs _].
  pose proof vega_low_sigma_upper as Hu.
  pose proof diff_low_second_bounds as [_ Hd].
  pose proof diff_low_second_lower as Hl.
  set (D := diff 10 10 T_low r_low C_low 0.00001) in *.
  set (V := vega 10 10 T_low r_low 0.00001) in *.
  assert (HV : 0 < V) by lra.
  assert (Hq : D / V * V = D) by (field; lra).
  assert (H1 : D / V < 0.001).
  { apply Rmult_lt_reg_r with V; [exact HV |]. rewrite Hq. nra. }
  assert (H2 : 0.00006 <= D / V).
  { apply Rmult_le_reg_r with V; [exact HV |]. rewrite Hq. nra. }
  lra.
Qed.

Lemma d2_low (u : R) :
  u <> 0 -> snd (d 10 10 T_low r_low u) = 1 / 50000 / u - u / 200.
Proof.
  intro Hu. rewrite d2_eq by (unfold T_low; lra || exact Hu).
  unfold moneyness. rewrite sqrt_T_low.
  replace (10 / 10) with 1 by lra. rewrite ln_1.
  unfold r_low, T_low. field. exact Hu.
Qed.

(** The price of the model as the discount on the strike plus the mass of
    the normal distribution between d2 and d1. *)
Lemma call_low_split (u : R) :
  u <> 0 ->
  call 10 10 T_low r_low u
  = 10 * (Norm.cdf (1 / 50000 / u + u / 200)
          - Norm.cdf (1 / 50000 / u - u / 200))
    + 10 * (1 - exp (- r_low * T_low)) * Norm.cdf (1 / 50000 / u - u / 200).
Proof.
  intro Hu. rewrite call_eq, d1_low, d2_low by exact Hu. ring.
Qed.

Lemma discount_low : 0 < exp (- r_low * T_low) <= 1.
Proof.
  split; [apply exp_pos |].
  rewrite <- exp_0. apply exp_monotone. unfold r_low, T_low. lra.
Qed.

Lemma C_low_lower :
  inv_c * 0.00000099
  + 10 * (1 - exp (- r_low * T_low)) * (1 / 2) <= C_low.
Proof.
  pose proof inv_c_bounds as [Hk _].
  pose proof discount_low as [_ He].
  unfold C_low. rewrite call_low_split by lra.
  replace (1 / 50000 / 0.05 + 0.05 / 200) with 0.00065 by lra.
  replace (1 / 50000 / 0.05 - 0.05 / 200) with 0.00015 by lra.
  destruct (cdf_mean_value 0.00015 0.00065) as (c & Hc & Hr); [lra |].
  rewrite Hc.
  pose proof (pdf_ge_quadratic c) as Hq.
  assert (Hcc : c * c <= 0.00065 * 0.00065) by nra.
  assert (Hp : (1 - 0.00065 * 0.00065 / 2) * inv_c <= Norm.pdf c).
  { apply Rle_trans with ((1 - c * c / 2) * inv_c); [| exact Hq].
    apply Rmult_le_compat_r; lra. }
  pose proof (vega_low_le 0.05 ltac:(lra)) as Hv.
  pose proof (cdf_monotone 0 0.00015 ltac:(lra)) as Hm.
  rewrite cdf_0 in Hm.
  assert (10 * (1 - exp (- r_low * T_low)) * (1 / 2)
          <= 10 * (1 - exp (- r_low * T_low)) * Norm.cdf 0.00015)
    by (apply Rmult_le_compat_l; lra).
  nra.
Qed.

(** At a negative volatility [- w] the price of the model is negative, up
    to the discount on the strike. *)
Lemma call_low_negative (w : R) :
  0.00005 <= w < 0.001 ->
  call 10 10 T_low r_low (- w)
  <= 10 * (1 - exp (- r_low * T_low)) * (1 / 2) - inv_c * 0.000004.
Proof.
  intros [Hw1 Hw2].
  pose proof inv_c_bounds as [Hk _].
  pose proof discount_low as [_ He].
  rewrite call_low_split by lra.
  set (q := 1 / 50000 / w).
  assert (Hqw : q * w = 1 / 50000) by (unfold q; field; lra).
  assert (Hq : 0 < q <= 2 / 5).
  { split.
    - unfold q. apply Rdiv_lt_0_compat; lra.
    - apply Rmult_le_reg_r with w; [lra |]. rewrite Hqw. lra. }
  replace (1 / 50000 / - w + - w / 200) with (- (q + w / 200))
    by (unfold q; field; lra).
  replace (1 / 50000 / - w - - w / 200) with (- (q - w / 200))
    by (unfold q; field; lra).
  destruct (cdf_mean_value (- (q + w / 200)) (- (q - w / 200)))
    as (c & Hc & Hr); [lra |].
  assert (Hdiff : Norm.cdf (- (q + w / 200)) - Norm.cdf (- (q - w / 200))
                  = - (Norm.pdf c * (w / 100))) by lra.
  rewrite Hdiff.
  pose proof (pdf_ge_quadratic c) as Hp.
  assert (Hqlow : 1 / 50 < q).
  { apply Rmult_lt_reg_r with w; [lra |]. rewrite Hqw. lra. }
  assert (Hcc : c * c <= (q + w / 200) * (q + w / 200)) by nra.
  assert (Hsq : (q + w / 200) * (q + w / 200) <= 17 / 100) by nra.
  assert (Hpdf : 9 / 10 * inv_c <= Norm.pdf c).
  { apply Rle_trans with ((1 - c * c / 2) * inv_c); [| exact Hp].
    apply Rmult_le_compat_r; lra. }
  assert (Hmass : 9 / 10 * inv_c * (0.00005 / 100) <= Norm.pdf c * (w / 100)).
  { apply Rmult_le_compat; lra. }
  pose proof (cdf_monotone (- (q - w / 200)) 0 ltac:(lra)) as Hm.
  rewrite cdf_0 in Hm.
  assert (10 * (1 - exp (- r_low * T_low)) * Norm.cdf (- (q - w / 200))
          <= 10 * (1 - exp (- r_low * T_low)) * (1 / 2))
    by (apply Rmult_le_compat_l; lra).
  lra.
Qed.

(** The price at the returned value misses the observed price by more than
    the solver's bound. *)
Lemma low_run_residual :
  0.000001
  <= Rabs (call 10 10 T_low r_low
             (0.00001 - diff 10 10 T_low r_low C_low 0.00001
                        / vega 10 10 T_low r_low 0.00001) - C_low).
Proof.
  pose proof inv_c_bounds as [Hk _].
  pose proof low_run_value_bounds as [Hv1 Hv2].
  set (v := 0.00001 - diff 10 10 T_low r_low C_low 0.00001
                      / vega 10 10 T_low r_low 0.00001) in *.
  pose proof (call_low_negative (- v) ltac:(lra)) as Hc.
  rewrite Ropp_involutive in Hc.
  pose proof C_low_lower as HC.
  rewrite Rabs_left1 by lra. lra.
Qed.

(** ** The price rises with the volatility *)

Lemma vega_pos (P X T r s : R) : 0 < P -> 0 < T -> 0 < vega P X T r s.
Proof.
  intros HP HT. unfold vega.
  apply Rmult_lt_0_compat; [| apply sqrt_lt_R0; exact HT].
  apply Rmult_lt_0_compat; [exact HP | apply pdf_pos].
Qed.

Lemma call_increasing (P X T r s1 s2 : R) :
  0 < P -> 0 < X -> 0 < T -> 0 < s1 < s2 ->
  call P X T r s1 < call P X T r s2.
Proof.
  intros HP HX HT [Hs1 Hs12].
  destruct (MVT_cor2 (call P X T r) (vega P X T r) s1 s2 Hs12)
    as (c & Hc & Hr).
  - intros u Hu. apply call_derivable; try assumption. lra.
  - pose proof (vega_pos P X T r c HP HT) as Hv.
    assert (0 < vega P X T r c * (s2 - s1))
      by (apply Rmult_lt_0_compat; lra).
    lra.
Qed.

(** ** Where vega is monotone *)











(** ** Convergence of the loop on a stretch where vega is monotone *)

Section MonotoneNewton.

Variables P X T r s : R.
Hypothesis P_pos : 0 < P.
Hypothesis X_pos : 0 < X.
Hypothesis T_pos : 0 < T.
Hypothesis vega_s : 0.01 <= vega P X T r s.

(** *** From below, vega decreasing: the candidates rise towards s *)

Section FromBelow.

Variable a : R.
Hypothesis a_pos : 0 < a.
Hypothesis vega_falls :
  forall u w : R, a <= u -> u <= w -> w <= s ->
                  vega P X T r w <= vega P X T r u.
Hypothesis no_explosion : call P X T r s - call P X T r a < 100.



End FromBelow.

(** *** From above, vega increasing: the candidates fall towards s *)

Section FromAbove.

Variable b : R.
Hypothesis s_pos : 0 < s.
Hypothesis vega_rises :
  forall u w : R, s <= u -> u <= w -> w <= b ->
                  vega P X T r u <= vega P X T r w.
Hypothesis no_explosion : call P X T r b - call P X T r s < 100.



End FromAbove.

End MonotoneNewton.

(** ** The round trip from the first guess *)



(** *** Two inputs of the round trip *)




(** * Statements of the specification *)

(** ** Round trip *)




(** ** The pricing formulas *)

(** C2: for P > 0, X > 0, T > 0, any r and s > 0, [d] returns exactly
    d1 = (ln(P/X) + (r + s²/2)·T) / (s·√T) and d2 = d1 − s·√T, and [call]
    returns P·Φ(d1) − X·e^(−r·T)·Φ(d2) with Φ the standard normal
    cumulative distribution function; both are functions of their
    arguments alone. *)
Theorem pricing_model_formulas (P X T r s : R) :
  0 < P -> 0 < X -> 0 < T -> 0 < s ->
  d P X T r s = (d1_spec P X T r s, d2_spec P X T r s)
  /\ call P X T r s = price_spec P X T r s.
Proof.
  intros _ _ _ _.
  assert (Hd : d P X T r s = (d1_spec P X T r s, d2_spec P X T r s)).
  { unfold d, d2_spec, d1_spec, Rsqr. simpl pow. rewrite Rmult_1_r.
    reflexivity. }
  split; [exact Hd |].
  unfold call. rewrite Hd. unfold price_spec.
  replace (- r * T) with (- (r * T)) by ring. reflexivity.
Qed.

Lemma pricing_model_formulas_witness :
  0 < 100 /\ 0 < 100 /\ 0 < 1 /\ 0 < 0.2
  /\ d 100 100 1 0.0285 0.2
     = (d1_spec 100 100 1 0.0285 0.2, d2_spec 100 100 1 0.0285 0.2)
  /\ call 100 100 1 0.0285 0.2 = price_spec 100 100 1 0.0285 0.2.
Proof.
  repeat (split; [lra |]).
  apply (pricing_model_formulas 100 100 1 0.0285 0.2); lra.
Defined.

(** ** The guesses and their order *)

(** C3, as stated, fails: the second guess is 0.075, not 0.055, the last
    guess is 1.475, not 1.50, and the list is not the one stepping by
    0.005. *)
Lemma guesses_step_counterexample :
  nth 1 s_list 0 = 0.075 /\ nth 1 s_list_spec 0 = 0.055
  /\ last s_list 0 = 1.475 /\ last s_list 0 <> 1.50
  /\ s_list <> s_list_spec.
Proof.
  assert (Hspec : nth 1 s_list_spec 0 = 0.055).
  { unfold s_list_spec. cbn [seq map nth INR]. lra. }
  repeat split.
  - exact s_list_second.
  - exact Hspec.
  - exact s_list_last.
  - rewrite s_list_last. lra.
  - intro Heq. pose proof s_list_second as H2.
    rewrite Heq, Hspec in H2. lra.
Qed.

(** C3, amended: the guesses are 0.05, 0.075, 0.100, ... stepping by 0.025
    up to 1.475, exactly 58 of them in increasing order; they are tried in
    that order and [call_iv] returns from the first guess whose loop ends
    with [success = True], whatever the later guesses would do. *)
Theorem guesses_in_order_first_converged :
  s_list = map (fun k => 0.05 + 0.025 * INR k) (seq 0 58)
  /\ length s_list = 58%nat
  /\ last s_list 0 = 1.475
  /\ (forall i j : nat, (i < j < 58)%nat -> nth i s_list 0 < nth j s_list 0)
  /\ forall (P X T r C : R) (fuel : nat) (tried : list R) (g : R)
            (rest : list R) (v : R),
      s_list = tried ++ g :: rest ->
      (forall g', In g' tried ->
         exists s', while_loop P X T r C fuel g' 1 = LoopEnd false s') ->
      while_loop P X T r C fuel g 1 = LoopEnd true v ->
      call_iv_exit P X T r C fuel = Some (ReturnS v)
      /\ call_iv P X T r C fuel = Some v.
Proof.
  split; [exact s_list_formula |].
  split; [exact s_list_length |].
  split; [exact s_list_last |].
  split; [exact s_list_increasing |].
  intros P X T r C fuel tried g rest v Hlist Htried Hg.
  assert (H : call_iv_exit P X T r C fuel = Some (ReturnS v)).
  { unfold call_iv_exit. rewrite Hlist.
    rewrite for_loop_skip by exact Htried.
    cbn [for_loop]. rewrite Hg. reflexivity. }
  split; [exact H |]. unfold call_iv. rewrite H. reflexivity.
Qed.

Lemma guesses_in_order_first_converged_witness :
  call_iv 100 100 1 0 (call 100 100 1 0 0.05) 1 = Some 0.05.
Proof.
  destruct guesses_in_order_first_converged as (_ & _ & _ & _ & H).
  destruct s_list_head as [rest Hrest].
  apply (H 100 100 1 0 (call 100 100 1 0 0.05) 1%nat [] 0.05 rest 0.05).
  - exact Hrest.
  - intros g' [].
  - apply exact_guess_converges; [lra | exact vega_at_the_money].
Defined.

(** ** The value returned on convergence *)

(** C4, as stated, fails in both of its parts.  With spot and strike 100,
    one year, rate 0 and an observed price 1e-7 above the model price at
    0.05, the price error at the first candidate 0.05 is below 1e-6 and
    every check passes, yet [call_iv] does not return that candidate: it
    returns a value above 0.05, the candidate after one more update.  With
    spot and strike 10, expiry in 1/10000 year, rate 0.2% and the observed
    price [C_low], [call_iv] returns from a converged guess a value whose
    own price error is at least 1e-6. *)
Lemma converged_candidate_counterexample :
  (Rabs (diff 100 100 1 0 (call 100 100 1 0 0.05 + 0.0000001) 0.05)
   < 0.000001
   /\ 0.001 <= vega 100 100 1 0 0.05
   /\ forall fuel : nat,
        exists v : R,
          call_iv 100 100 1 0 (call 100 100 1 0 0.05 + 0.0000001) (S fuel)
          = Some v
          /\ 0.05 < v)
  /\ exists v : R,
       (forall fuel : nat,
           call_iv_exit 10 10 T_low r_low C_low (2 + fuel)
           = Some (ReturnS v)
           /\ call_iv 10 10 T_low r_low C_low (2 + fuel) = Some v)
       /\ ~ Rabs (call 10 10 T_low r_low v - C_low) < 0.000001.
Proof.
  assert (Hd2 : diff 100 100 1 0 (call 100 100 1 0 0.05 + 0.0000001) 0.05
                = - 0.0000001)
    by (unfold diff; lra).
  pose proof vega_at_the_money as Hv.
  split; [split; [| split] |].
  - rewrite Hd2, Rabs_left; lra.
  - exact Hv.
  - intro fuel.
    exists (0.05 - diff 100 100 1 0 (call 100 100 1 0 0.05 + 0.0000001) 0.05
                   / vega 100 100 1 0 0.05).
    split.
    + unfold call_iv, call_iv_exit.
      destruct s_list_head as [rest ->]. cbn [for_loop].
      rewrite one_pass_converges; [reflexivity | | lra | exact Hv |].
      * unfold good_bound, bad_bound. lra.
      * rewrite Hd2, Rabs_left; unfold good_bound; lra.
    + rewrite Hd2.
      assert (0 < 0.0000001 / vega 100 100 1 0 0.05)
        by (apply Rdiv_lt_0_compat; lra).
      unfold Rdiv in *. lra.
  - exists (0.00001 - diff 10 10 T_low r_low C_low 0.00001
                      / vega 10 10 T_low r_low 0.00001).
    split.
    + intro fuel.
      assert (H : call_iv_exit 10 10 T_low r_low C_low (2 + fuel)
                  = Some (ReturnS
                            (0.00001 - diff 10 10 T_low r_low C_low 0.00001
                                       / vega 10 10 T_low r_low 0.00001))).
      { apply (for_loop_fuel_le _ _ _ _ _ 2); [lia |].
        destruct s_list_head as [rest ->]. cbn [for_loop].
        rewrite low_run. reflexivity. }
      split; [exact H |]. unfold call_iv. rewrite H. reflexivity.
    + pose proof low_run_residual as Hres. lra.
Qed.

(** C4, amended: a pass whose candidate s passes the divergence checks and
    whose |priceError| is below 0.000001 is the last pass of the search,
    and [call_iv] then returns the Newton update s − priceError / vega of
    that candidate; every value returned on success is such an update,
    less than 0.001 away from a positive candidate s with
    |call(P,X,T,r,s) − ObservedPrice| < 0.000001 and vega at least 0.001. *)
Theorem converged_returns_newton_update (P X T r C : R) :
  (forall (fuel : nat) (s err : R),
      good_bound <= err < bad_bound -> 0 < s -> 0.001 <= vega P X T r s ->
      Rabs (call P X T r s - C) < 0.000001 ->
      while_loop P X T r C (S fuel) s err
      = LoopEnd true (s - (call P X T r s - C) / vega P X T r s))
  /\ (forall (fuel : nat) (v : R),
        call_iv_exit P X T r C fuel = Some (ReturnS v) ->
        exists s : R,
          0 < s /\ 0.001 <= vega P X T r s
          /\ Rabs (call P X T r s - C) < 0.000001
          /\ v = s - (call P X T r s - C) / vega P X T r s
          /\ Rabs (v - s) < 0.001).
Proof.
  split.
  - intros fuel s err Herr Hs Hv Hd.
    apply one_pass_converges; assumption.
  - intros fuel v H. apply call_iv_exit_ReturnS in H. exact H.
Qed.

Lemma converged_returns_newton_update_witness :
  exists s : R,
    0 < s /\ 0.001 <= vega 100 100 1 0 s
    /\ Rabs (call 100 100 1 0 s - call 100 100 1 0 0.05) < 0.000001
    /\ 0.05 = s - (call 100 100 1 0 s - call 100 100 1 0 0.05)
                  / vega 100 100 1 0 s
    /\ Rabs (0.05 - s) < 0.001.
Proof.
  destruct (converged_returns_newton_update
              100 100 1 0 (call 100 100 1 0 0.05)) as [_ H].
  apply (H 1%nat 0.05).
  unfold call_iv_exit. destruct s_list_head as [rest ->]. cbn [for_loop].
  rewrite exact_guess_converges by (lra || exact vega_at_the_money).
  reflexivity.
Defined.

(** ** Divergence checks *)

(** C5, as stated, fails: the price error of a candidate is not checked
    before the update made from it.  With spot and strike 100, one year,
    rate 0 and an observed price 100 above the model price at 0.05, the
    first pass of the first guess finds a price error of exactly 100 and
    still performs the update; [err] is 1 when it is tested. *)
Lemma price_error_check_counterexample :
  100 <= Rabs (diff 100 100 1 0 (call 100 100 1 0 0.05 + 100) 0.05)
  /\ loop_body 100 100 1 0 (call 100 100 1 0 0.05 + 100) 0.05 1
     = Next (0.05 - diff 100 100 1 0 (call 100 100 1 0 0.05 + 100) 0.05
                    / vega 100 100 1 0 0.05)
         100.
Proof.
  assert (Hd : diff 100 100 1 0 (call 100 100 1 0 0.05 + 100) 0.05 = - 100)
    by (unfold diff; lra).
  assert (Ha : Rabs (diff 100 100 1 0 (call 100 100 1 0 0.05 + 100) 0.05)
               = 100)
    by (rewrite Hd, Rabs_left; lra).
  split; [rewrite Ha; lra |].
  apply loop_body_Next. rewrite Ha. unfold bad_bound.
  pose proof vega_at_the_money. repeat split; lra.
Qed.

(** C5, amended: before every Newton update the loop has checked the
    recorded price error (that of the previous pass, 1 at the first)
    against 100, the candidate against 0 and vega against 0.001; the price
    error of the current candidate is tested on entry to the next pass,
    after the update made from it.  Whenever the price error of a
    candidate is at least 100, or the candidate is not positive, or vega
    is below 0.001, the loop of that guess ends with [success = False],
    nothing is returned from it and the search goes on with the next
    guess. *)
Theorem divergence_checks_abort_guess (P X T r C : R) :
  (forall s err s' err' : R,
      loop_body P X T r C s err = Next s' err' ->
      err < 100 /\ 0 < s /\ 0.001 <= vega P X T r s
      /\ s' = s - diff P X T r C s / vega P X T r s)
  /\ (forall (fuel : nat) (s err : R),
        good_bound <= err ->
        100 <= err \/ 100 <= Rabs (diff P X T r C s)
        \/ s <= 0 \/ vega P X T r s < 0.001 ->
        exists s', while_loop P X T r C (S (S fuel)) s err = LoopEnd false s')
  /\ (forall (fuel : nat) (g s' : R) (rest : list R),
        while_loop P X T r C fuel g 1 = LoopEnd false s' ->
        for_loop P X T r C fuel (g :: rest) = for_loop P X T r C fuel rest).
Proof.
  repeat split.
  - apply loop_body_Next in H. unfold bad_bound in H. tauto.
  - apply loop_body_Next in H. tauto.
  - apply loop_body_Next in H. tauto.
  - apply loop_body_Next in H. tauto.
  - intros fuel s err Hge Hcond.
    rewrite while_loop_enter by exact Hge.
    destruct (loop_body P X T r C s err) as [| s' err'] eqn:Hbody.
    + exists s. reflexivity.
    + apply loop_body_Next in Hbody.
      destruct Hbody as (Herr & Hs & Hv & -> & ->).
      unfold bad_bound in Herr.
      destruct Hcond as [Hc | [Hc | [Hc | Hc]]]; try lra.
      assert (Hge' : good_bound <= Rabs (diff P X T r C s))
        by (unfold good_bound; lra).
      rewrite while_loop_enter by exact Hge'.
      assert (Hb : loop_body P X T r C
                     (s - diff P X T r C s / vega P X T r s)
                     (Rabs (diff P X T r C s)) = Break).
      { apply loop_body_Break. left. unfold bad_bound. exact Hc. }
      rewrite Hb. eexists. reflexivity.
  - intros fuel g s' rest Hg. cbn [for_loop]. rewrite Hg. reflexivity.
Qed.

Lemma divergence_checks_abort_guess_witness :
  exists s',
    while_loop (1 / 1000) 1 1 0 0 2 0.05 1 = LoopEnd false s'.
Proof.
  destruct (divergence_checks_abort_guess (1 / 1000) 1 1 0 0)
    as (_ & H & _).
  apply (H 0%nat 0.05 1).
  - apply good_bound_lt_1.
  - right. right. right. apply flat_vega; [lra |]. rewrite sqrt_1. lra.
Defined.

(** ** Exhausted search *)

(** C6: when the loop of every guess ends with [success = False],
    whatever check ended it, [call_iv] leaves through its final
    [return 0]: the value is 0 and carries nothing else. *)
Theorem exhausted_search_returns_zero (P X T r C : R) (fuel : nat) :
  (forall g, In g s_list ->
     exists s', while_loop P X T r C fuel g 1 = LoopEnd false s') ->
  call_iv_exit P X T r C fuel = Some Return0
  /\ call_iv P X T r C fuel = Some 0.
Proof.
  intro H.
  assert (He : call_iv_exit P X T r C fuel = Some Return0)
    by (apply for_loop_all_fail; exact H).
  split; [exact He |]. unfold call_iv. rewrite He. reflexivity.
Qed.

Lemma exhausted_search_returns_zero_witness :
  call_iv_exit (1 / 1000) 1 1 0 0 1 = Some Return0
  /\ call_iv (1 / 1000) 1 1 0 0 1 = Some 0.
Proof.
  apply (exhausted_search_returns_zero (1 / 1000) 1 1 0 0 1).
  intros g _. exists g.
  apply flat_vega_fails; [lra |]. rewrite sqrt_1. lra.
Defined.

(** ** The sign of a converged result *)

(** C7 fails on the code: with spot and strike 10, expiry in 1/10000 year,
    rate 0.2% and the observed price [C_low], the first guess 0.05
    converges in two passes ([success] stays [True], [return s] is taken)
    and the value returned is negative: [s] is updated after the last
    [s <= 0] check and returned without another check. *)
Theorem converged_value_negative :
  exists v : R,
    (forall fuel : nat,
        call_iv_exit 10 10 T_low r_low C_low (2 + fuel) = Some (ReturnS v)
        /\ call_iv 10 10 T_low r_low C_low (2 + fuel) = Some v)
    /\ v < 0.
Proof.
  exists (0.00001 - diff 10 10 T_low r_low C_low 0.00001
                    / vega 10 10 T_low r_low 0.00001).
  split; [| exact low_run_negative].
  intro fuel.
  assert (H : call_iv_exit 10 10 T_low r_low C_low (2 + fuel)
              = Some (ReturnS
                        (0.00001 - diff 10 10 T_low r_low C_low 0.00001
                                   / vega 10 10 T_low r_low 0.00001))).
  { apply (for_loop_fuel_le _ _ _ _ _ 2); [lia |].
    destruct s_list_head as [rest ->]. cbn [for_loop].
    rewrite low_run. reflexivity. }
  split; [exact H |]. unfold call_iv. rewrite H. reflexivity.
Qed.


(** ** The domain of the pricing model *)

(** C9: for P > 0, X > 0, T > 0, every invocation of [d] and of [call]
    made by [call_iv] has a positive volatility, no division evaluated in
    the run has a zero divisor, and every Newton update divides by a vega
    that is at least 0.001.  The events are those of the run that computes
    the result of [call_iv], and each pass that gets by the first check
    does record its invocations of [call] and [d]. *)
Theorem pricing_model_domain_respected (P X T r C : R) (fuel : nat) :
  0 < P -> 0 < X -> 0 < T ->
  fst (call_iv_traced P X T r C fuel) = call_iv P X T r C fuel
  /\ Forall event_safe (snd (call_iv_traced P X T r C fuel))
  /\ (forall s err : R,
        err < bad_bound -> 0 < s ->
        In (Invoke_call s) (snd (loop_body_traced P X T r C s err))
        /\ In (Invoke_d s) (snd (loop_body_traced P X T r C s err))).
Proof.
  intros _ HX HT. split; [apply call_iv_traced_fst |]. split.
  - unfold call_iv_traced.
    pose proof (for_loop_traced_safe P X T r C HX HT fuel s_list) as H.
    destruct (for_loop_traced P X T r C fuel s_list). exact H.
  - intros s err. apply loop_body_traced_invokes.
Qed.

Lemma pricing_model_domain_respected_witness :
  Forall event_safe (snd (call_iv_traced 100 150 (1 / 10) 0.0285 0.01 5)).
Proof.
  apply (pricing_model_domain_respected 100 150 (1 / 10) 0.0285 0.01 5);
    lra.
Defined.

(** * Further properties of the pricing model and the solver *)

(** X1: for P, X, T > 0 and s > 0, the number [call_iv] computes as
    [vega], P·pdf(d1)·√T, is positive and is the derivative of
    [call(P, X, T, r, s)] in s, and the loop's update is the Newton step
    s − (call(s) − C) / vega built on it. *)
Theorem vega_is_price_derivative (P X T r s : R) :
  0 < P -> 0 < X -> 0 < T -> 0 < s ->
  derivable_pt_lim (call P X T r) s (vega P X T r s)
  /\ 0 < vega P X T r s
  /\ forall C err s' err' : R,
      loop_body P X T r C s err = Next s' err' ->
      s' = s - (call P X T r s - C) / vega P X T r s.
Proof.
  intros HP HX HT Hs. split; [| split].
  - apply call_derivable; assumption.
  - apply vega_pos; assumption.
  - intros C err s' err' H. apply loop_body_Next in H.
    destruct H as (_ & _ & _ & -> & _). reflexivity.
Qed.

Lemma vega_is_price_derivative_witness :
  derivable_pt_lim (call 100 100 1 0) 0.05 (vega 100 100 1 0 0.05)
  /\ 0 < vega 100 100 1 0 0.05.
Proof.
  destruct (vega_is_price_derivative 100 100 1 0 0.05) as (H1 & H2 & _);
    try lra.
  split; assumption.
Defined.

(** X2: for P, X, T > 0 the call price is strictly increasing in the
    volatility s > 0; two positive volatilities with the same price are
    equal, so an observed price has at most one implied volatility. *)
Theorem call_strictly_increasing (P X T r s1 s2 : R) :
  0 < P -> 0 < X -> 0 < T -> 0 < s1 -> 0 < s2 ->
  (s1 < s2 -> call P X T r s1 < call P X T r s2)
  /\ (call P X T r s1 = call P X T r s2 -> s1 = s2).
Proof.
  intros HP HX HT Hs1 Hs2. split.
  - intro H. apply call_increasing; try assumption. lra.
  - intro Heq. destruct (Rtotal_order s1 s2) as [Hlt | [Heq' | Hgt]].
    + pose proof (call_increasing P X T r s1 s2 HP HX HT (conj Hs1 Hlt)).
      lra.
    + exact Heq'.
    + pose proof (call_increasing P X T r s2 s1 HP HX HT (conj Hs2 Hgt)).
      lra.
Qed.

Lemma call_strictly_increasing_witness :
  call 100 100 1 0.0285 0.2 < call 100 100 1 0.0285 0.35.
Proof.
  assert (H : 0.2 < 0.35 ->
              call 100 100 1 0.0285 0.2 < call 100 100 1 0.0285 0.35)
    by (apply (call_strictly_increasing 100 100 1 0.0285 0.2 0.35); lra).
  apply H. lra.
Defined.

(** X3: when the observed price is the model price at a volatility
    s_true > 0 (with P, X, T > 0), every Newton update of the loop moves
    the candidate towards s_true: up when the candidate is below it, down
    when it is above, and not at all when it is s_true. *)
Theorem newton_update_direction (P X T r s_true s err s' err' : R) :
  0 < P -> 0 < X -> 0 < T -> 0 < s_true ->
  loop_body P X T r (call P X T r s_true) s err = Next s' err' ->
  (s < s_true -> s < s')
  /\ (s_true < s -> s' < s)
  /\ (s = s_true -> s' = s).
Proof.
  intros HP HX HT Htrue H. apply loop_body_Next in H.
  destruct H as (_ & Hs & Hv & -> & _). unfold diff.
  assert (Hinv : 0 < / vega P X T r s) by (apply Rinv_0_lt_compat; lra).
  unfold Rdiv. repeat split.
  - intro Hlt.
    pose proof (call_increasing P X T r s s_true HP HX HT (conj Hs Hlt)).
    nra.
  - intro Hgt.
    pose proof (call_increasing P X T r s_true s HP HX HT (conj Htrue Hgt)).
    nra.
  - intros ->. ring.
Qed.

Lemma newton_update_direction_witness :
  0.05 < 0.05 - diff 100 100 1 0 (call 100 100 1 0 0.2) 0.05
                / vega 100 100 1 0 0.05.
Proof.
  assert (H : loop_body 100 100 1 0 (call 100 100 1 0 0.2) 0.05 1
              = Next (0.05 - diff 100 100 1 0 (call 100 100 1 0 0.2) 0.05
                             / vega 100 100 1 0 0.05)
                  (Rabs (diff 100 100 1 0 (call 100 100 1 0 0.2) 0.05))).
  { apply loop_body_Next. unfold bad_bound.
    pose proof vega_at_the_money. repeat split; lra. }
  assert (Hlt : 0.05 < 0.2) by lra.
  assert (H0 : 0 < 100) by lra.
  assert (H1 : 0 < 1) by lra.
  assert (H2 : 0 < 0.2) by lra.
  exact (proj1 (newton_update_direction 100 100 1 0 0.2 0.05 1 _ _
                  H0 H0 H1 H2 H) Hlt).
Defined.

Lemma small_spot_vega (P X T r s : R) :
  0 < P -> 0 < T -> P * sqrt T < 0.0024 -> vega P X T r s < 0.001.
Proof.
  intros HP HT Hflat. unfold vega.
  pose proof (pdf_upper (fst (d P X T r s))) as Hup.
  pose proof (pdf_pos (fst (d P X T r s))) as Hpos.
  pose proof (sqrt_lt_R0 T HT) as Hq.
  replace (P * Norm.pdf (fst (d P X T r s)) * sqrt T)
    with (P * sqrt T * Norm.pdf (fst (d P X T r s))) by ring.
  assert (0 < P * sqrt T) by (apply Rmult_lt_0_compat; assumption).
  nra.
Qed.

Lemma small_spot_exit (P X T r C : R) (fuel : nat) :
  0 < P -> 0 < T -> P * sqrt T < 0.0024 ->
  call_iv_exit P X T r C (S fuel) = Some Return0.
Proof.
  intros HP HT Hflat. apply for_loop_all_fail. intros g _. exists g.
  rewrite while_loop_enter by apply good_bound_lt_1.
  assert (H : loop_body P X T r C g 1 = Break)
    by (apply loop_body_Break; right; right; apply small_spot_vega;
        assumption).
  rewrite H. reflexivity.
Qed.

Lemma small_spot_value (P X T r C : R) (fuel : nat) :
  0 < P -> 0 < T -> P * sqrt T < 0.0024 ->
  call_iv P X T r C (S fuel) = Some 0.
Proof.
  intros HP HT Hflat. unfold call_iv.
  rewrite small_spot_exit by assumption. reflexivity.
Qed.

Lemma call_iv_nonzero_exit (P X T r C : R) (fuel : nat) (v : R) :
  call_iv P X T r C fuel = Some v -> v <> 0 ->
  call_iv_exit P X T r C fuel = Some (ReturnS v).
Proof.
  intros Hv Hnz. unfold call_iv in Hv.
  destruct (call_iv_exit P X T r C fuel) as [[s |] |];
    cbn [option_map value] in Hv; try discriminate.
  - injection Hv as ->. reflexivity.
  - injection Hv as <-. contradiction Hnz. reflexivity.
Qed.

(** X4: for P, X, T > 0 with P·√T < 0.0024, vega is below 0.001 at every
    volatility, so every guess is given up in its first pass and
    [call_iv] returns 0 whatever the strike, the rate and the observed
    price. *)
Theorem small_spot_always_fails (P X T r C : R) (fuel : nat) :
  0 < P -> 0 < X -> 0 < T -> P * sqrt T < 0.0024 ->
  (forall s : R, vega P X T r s < 0.001)
  /\ call_iv_exit P X T r C (S fuel) = Some Return0
  /\ call_iv P X T r C (S fuel) = Some 0.
Proof.
  intros HP _ HT Hflat. split; [| split].
  - intro s. apply small_spot_vega; assumption.
  - apply small_spot_exit; assumption.
  - apply small_spot_value; assumption.
Qed.

Lemma small_spot_always_fails_witness :
  call_iv (1 / 500) 3 1 0.0285 0.01 1 = Some 0.
Proof.
  apply (small_spot_always_fails (1 / 500) 3 1 0.0285 0.01 0); try lra.
  rewrite sqrt_1. lra.
Defined.

Lemma d_scaled (P X T r s k : R) :
  0 < k -> 0 < X -> d (k * P) (k * X) T r s = d P X T r s.
Proof.
  intros Hk HX. unfold d.
  replace (k * P / (k * X)) with (P / X) by (field; split; lra).
  reflexivity.
Qed.

(** X5: multiplying spot and strike by the same k > 0 leaves d1 and d2
    unchanged and multiplies the call price and vega by k. *)
Theorem pricing_homogeneous (P X T r s k : R) :
  0 < k -> 0 < X ->
  d (k * P) (k * X) T r s = d P X T r s
  /\ call (k * P) (k * X) T r s = k * call P X T r s
  /\ vega (k * P) (k * X) T r s = k * vega P X T r s.
Proof.
  intros Hk HX. pose proof (d_scaled P X T r s k Hk HX) as Hd.
  split; [exact Hd |]. split.
  - unfold call. rewrite Hd. destruct (d P X T r s) as [d1 d2]. ring.
  - unfold vega. rewrite Hd. ring.
Qed.

Lemma pricing_homogeneous_witness :
  call (2 * 50) (2 * 60) 1 0.0285 0.2 = 2 * call 50 60 1 0.0285 0.2.
Proof.
  apply (pricing_homogeneous 50 60 1 0.0285 0.2 2); lra.
Defined.

(** X6: [call_iv] does not share that homogeneity, its three bounds being
    absolute.  When the observed price is the model price at the first
    guess 0.05 and vega is at least 0.001 there, [call_iv] returns 0.05;
    with spot, strike and observed price all multiplied by a k > 0 small
    enough for k·P·√T < 0.0024, it returns 0. *)
Theorem solver_not_scale_invariant (P X T r k : R) (fuel : nat) :
  0 < P -> 0 < X -> 0 < T -> 0 < k ->
  0.001 <= vega P X T r 0.05 -> k * P * sqrt T < 0.0024 ->
  call_iv P X T r (call P X T r 0.05) (S fuel) = Some 0.05
  /\ k * call P X T r 0.05 = call (k * P) (k * X) T r 0.05
  /\ call_iv (k * P) (k * X) T r (k * call P X T r 0.05) (S fuel) = Some 0.
Proof.
  intros HP HX HT Hk Hv Hflat. split; [| split].
  - unfold call_iv, call_iv_exit.
    destruct s_list_head as [rest ->]. cbn [for_loop].
    rewrite exact_guess_converges by (lra || exact Hv). reflexivity.
  - unfold call. rewrite d_scaled by assumption.
    destruct (d P X T r 0.05) as [d1 d2]. ring.
  - apply small_spot_value; try assumption.
    apply Rmult_lt_0_compat; assumption.
Qed.

Lemma solver_not_scale_invariant_witness :
  call_iv 100 100 1 0 (call 100 100 1 0 0.05) 1 = Some 0.05
  /\ call_iv (1 / 100000 * 100) (1 / 100000 * 100) 1 0
       (1 / 100000 * call 100 100 1 0 0.05) 1 = Some 0.
Proof.
  destruct (solver_not_scale_invariant 100 100 1 0 (1 / 100000) 0)
    as (H1 & _ & H2); try lra.
  - exact vega_at_the_money.
  - rewrite sqrt_1. lra.
  - split; assumption.
Defined.

(** X7: a value other than 0 returned by [call_iv] comes from the
    [return s] of a converged guess: it is the Newton update of a positive
    candidate whose model price is within 1e-6 of the observed price and
    whose vega is at least 0.001, it lies within 0.001 of that candidate,
    and so it is greater than -0.001. *)
Theorem nonzero_result_converged (P X T r C : R) (fuel : nat) (v : R) :
  call_iv P X T r C fuel = Some v -> v <> 0 ->
  call_iv_exit P X T r C fuel = Some (ReturnS v)
  /\ - 0.001 < v
  /\ exists s0 : R,
      0 < s0 /\ 0.001 <= vega P X T r s0
      /\ Rabs (call P X T r s0 - C) < 0.000001
      /\ v = s0 - (call P X T r s0 - C) / vega P X T r s0
      /\ Rabs (v - s0) < 0.001.
Proof.
  intros Hv Hnz. unfold call_iv in Hv.
  destruct (call_iv_exit P X T r C fuel) as [[s |] |] eqn:He;
    cbn [option_map value] in Hv; try discriminate.
  - injection Hv as ->.
    pose proof (call_iv_exit_ReturnS P X T r C fuel v He)
      as (s0 & Hs0 & Hvega & Hd & Heq & Hnear).
    split; [reflexivity |]. split.
    + apply Rabs_def2 in Hnear. lra.
    + exists s0. repeat split; assumption.
  - injection Hv as <-. contradiction Hnz. reflexivity.
Qed.

Lemma nonzero_result_converged_witness :
  call_iv_exit 100 100 1 0 (call 100 100 1 0 0.05) 1 = Some (ReturnS 0.05)
  /\ - 0.001 < 0.05.
Proof.
  destruct (nonzero_result_converged 100 100 1 0
              (call 100 100 1 0 0.05) 1 0.05) as (H1 & H2 & _).
  - exact (at_the_money_run 0).
  - lra.
  - split; assumption.
Defined.

(** X8: for P, X, T > 0 and s different from 0, the discounted strike
    X·e^(−r·T) weighted by the density at d2 equals the spot weighted by
    the density at d1, so the vega of [call_iv] can be computed from
    either side. *)
Theorem discounted_strike_density (P X T r s : R) :
  0 < P -> 0 < X -> 0 < T -> s <> 0 ->
  X * exp (- r * T) * Norm.pdf (snd (d P X T r s))
  = P * Norm.pdf (fst (d P X T r s))
  /\ vega P X T r s
     = X * exp (- r * T) * Norm.pdf (snd (d P X T r s)) * sqrt T.
Proof.
  intros HP HX HT Hs.
  pose proof (discounted_density P X T r HP HX HT s Hs) as H.
  split; [exact H |]. unfold vega. rewrite H. reflexivity.
Qed.

Lemma discounted_strike_density_witness :
  150 * exp (- (0.0285) * 1) * Norm.pdf (snd (d 100 150 1 0.0285 0.2))
  = 100 * Norm.pdf (fst (d 100 150 1 0.0285 0.2))
  /\ vega 100 150 1 0.0285 0.2
     = 150 * exp (- (0.0285) * 1)
       * Norm.pdf (snd (d 100 150 1 0.0285 0.2)) * sqrt 1.
Proof.
  apply (discounted_strike_density 100 150 1 0.0285 0.2); lra.
Defined.

(** X16: for P, X, T > 0 and s > 0, with the model's own price at s as
    observed price: whichever guess [call_iv] returns from, the value
    returned is the Newton update of a positive candidate s0 whose price
    is within 1e-6 of the observed one, and it lies within 1e-4 of s as
    soon as s and s0 lie in an interval on which vega is at least 0.02. *)
Theorem converged_result_accuracy (P X T r s : R) (fuel : nat) (v : R) :
  0 < P -> 0 < X -> 0 < T -> 0 < s ->
  call_iv_exit P X T r (call P X T r s) fuel = Some (ReturnS v) ->
  exists s0 : R,
    0 < s0 /\ 0.001 <= vega P X T r s0
    /\ Rabs (call P X T r s0 - call P X T r s) < 0.000001
    /\ v = newton P X T r (call P X T r s) s0
    /\ forall lo hi : R,
        0 < lo -> lo <= s <= hi -> lo <= s0 <= hi ->
        (forall u : R, lo <= u <= hi -> 0.02 <= vega P X T r u) ->
        Rabs (v - s) < 0.0001.
Proof.
  intros HP HX HT Hs H. apply call_iv_exit_ReturnS in H.
  destruct H as (s0 & Hs0 & Hv0 & Hd & Hv & Hnear).
  exists s0. repeat split; try assumption.
  intros lo hi Hlo Hin Hin0 Hvega.
  assert (Hstep : Rabs (v - s0) < 0.000001 / 0.02).
  { rewrite Hv.
    replace (s0 - diff P X T r (call P X T r s) s0 / vega P X T r s0 - s0)
      with (- (diff P X T r (call P X T r s) s0 / vega P X T r s0))
      by ring.
    rewrite Rabs_Ropp. apply update_bound; [| exact Hd].
    split; [lra |]. apply Hvega. exact Hin0. }
  assert (Hgap : Rabs (s0 - s) * 0.02
                 <= Rabs (call P X T r s0 - call P X T r s)).
  { apply volatility_gap; try assumption; try lra.
    intros u [Hu1 Hu2]. apply Hvega.
    destruct (Rle_dec s s0).
    - rewrite Rmin_left in Hu1 by lra. rewrite Rmax_right in Hu2 by lra.
      lra.
    - rewrite Rmin_right in Hu1 by lra. rewrite Rmax_left in Hu2 by lra.
      lra. }
  unfold diff, good_bound in Hd.
  replace (v - s) with ((v - s0) + (s0 - s)) by ring.
  pose proof (Rabs_triang (v - s0) (s0 - s)). lra.
Qed.

Lemma converged_result_accuracy_witness :
  exists s0 : R,
    0 < s0 /\ 0.001 <= vega 100 100 1 0 s0
    /\ Rabs (call 100 100 1 0 s0 - call 100 100 1 0 0.05) < 0.000001
    /\ 0.05 = newton 100 100 1 0 (call 100 100 1 0 0.05) s0
    /\ forall lo hi : R,
        0 < lo -> lo <= 0.05 <= hi -> lo <= s0 <= hi ->
        (forall u : R, lo <= u <= hi -> 0.02 <= vega 100 100 1 0 u) ->
        Rabs (0.05 - 0.05) < 0.0001.
Proof.
  apply (converged_result_accuracy 100 100 1 0 0.05 1 0.05); try lra.
  unfold call_iv_exit. destruct s_list_head as [rest ->]. cbn [for_loop].
  rewrite exact_guess_converges by (lra || exact vega_at_the_money).
  reflexivity.
Defined.

(** * Properties of plot_ivs and main *)

Lemma Req_b_true (a b : R) : Req_b a b = true <-> a = b.
Proof. unfold Req_b; destruct (Req_dec_T a b); split; intros; easy. Qed.

Lemma Req_b_false (a b : R) : Req_b a b = false <-> a <> b.
Proof. unfold Req_b; destruct (Req_dec_T a b); split; intros; easy. Qed.

Lemma kept_true (iv moneyness : R) :
  kept iv moneyness = true <-> iv <> 0 /\ 0 < moneyness < 2.
Proof.
  unfold kept. rewrite !andb_true_iff, negb_true_iff.
  rewrite Req_b_false, !Rlt_b_true. tauto.
Qed.

Lemma years_zero (n : Z) : IZR n / 365 = 0 <-> n = 0%Z.
Proof.
  split.
  - intro H. apply eq_IZR. lra.
  - intros ->. lra.
Qed.

Lemma years_negative (n : Z) : IZR n / 365 < 0 <-> (n < 0)%Z.
Proof.
  split.
  - intro H. apply lt_IZR. lra.
  - intro H. apply IZR_lt in H. lra.
Qed.

Lemma combine_snoc {A B : Type} (l1 : list A) (l2 : list B) (a : A) (b : B) :
  length l1 = length l2 ->
  combine (l1 ++ [a]) (l2 ++ [b]) = combine l1 l2 ++ [(a, b)].
Proof.
  revert l2. induction l1 as [| x l1 IH]; intros [| y l2] Hlen;
    cbn in *; try discriminate; [reflexivity |].
  f_equal. apply IH. lia.
Qed.

Lemma points_snoc (fig : figure) (T moneyness iv : R) :
  aligned fig ->
  aligned {| expirys := expirys fig ++ [T];
             moneynesses := moneynesses fig ++ [moneyness];
             ivs := ivs fig ++ [iv] |}
  /\ points {| expirys := expirys fig ++ [T];
               moneynesses := moneynesses fig ++ [moneyness];
               ivs := ivs fig ++ [iv] |}
     = points fig ++ [(T, (moneyness, iv))].
Proof.
  intros [H1 H2]. split.
  - unfold aligned. cbn. rewrite !length_app. cbn. lia.
  - unfold points. cbn.
    rewrite (combine_snoc (moneynesses fig) (ivs fig)) by exact H2.
    apply combine_snoc. rewrite length_combine. lia.
Qed.

Lemma for_calls_points (fuel : nat) (price T : R) (rows : list call_row) :
  forall fig fig' : figure,
    for_calls fuel price T rows fig = Finished fig' ->
    aligned fig ->
    aligned fig'
    /\ (rows <> [] -> 0 <= T)
    /\ (length (ivs fig') <= length (ivs fig) + length rows)%nat
    /\ forall p, In p (points fig') <->
                 In p (points fig)
                 \/ exists row, In row rows /\ row_point fuel price T row p.
Proof.
  induction rows as [| row rows IH]; intros fig fig' Hrun Hal.
  - cbn in Hrun. injection Hrun as <-.
    split; [exact Hal |]. split; [intro H; contradiction H; reflexivity |].
    split; [cbn; lia |].
    intro p. split; [tauto |].
    intros [H | (row & [] & _)]. exact H.
  - cbn [for_calls] in Hrun.
    destruct (Rlt_b T 0) eqn:HT; [discriminate |].
    apply Rlt_b_false in HT.
    destruct (call_iv price (strike row) T r_plot (lastPrice row) fuel)
      as [iv |] eqn:Hiv; [| discriminate].
    destruct (kept iv (strike row / price)) eqn:Hk.
    + apply kept_true in Hk.
      destruct (points_snoc fig T (strike row / price) iv Hal)
        as [Hal' Hpts].
      destruct (IH _ _ Hrun Hal') as (Hal'' & _ & Hlen & Hin).
      split; [exact Hal'' |]. split; [intros _; exact HT |]. split.
      * cbn [ivs length] in *. rewrite length_app in Hlen. cbn in Hlen. lia.
      * intro p. rewrite Hin, Hpts, in_app_iff. cbn [In]. split.
        -- intros [[H | [<- | []]] | (row' & Hrow' & Hp)].
           ++ left. exact H.
           ++ right. exists row. split; [left; reflexivity |].
              exists iv. tauto.
           ++ right. exists row'. split; [right; exact Hrow' | exact Hp].
        -- intros [H | (row' & [<- | Hrow'] & Hp)].
           ++ left. left. exact H.
           ++ left. right. left.
              destruct Hp as (iv' & Hiv' & _ & _ & ->).
              rewrite Hiv in Hiv'. injection Hiv' as <-. reflexivity.
           ++ right. exists row'. split; assumption.
    + destruct (IH _ _ Hrun Hal) as (Hal'' & _ & Hlen & Hin).
      split; [exact Hal'' |]. split; [intros _; exact HT |]. split.
      * cbn [length]. lia.
      * intro p. rewrite Hin. split.
        -- intros [H | (row' & Hrow' & Hp)]; [left; exact H |].
           right. exists row'. split; [right; exact Hrow' | exact Hp].
        -- intros [H | (row' & [<- | Hrow'] & Hp)].
           ++ left. exact H.
           ++ exfalso. destruct Hp as (iv' & Hiv' & Hnz & Hm & _).
              rewrite Hiv in Hiv'. injection Hiv' as <-.
              assert (kept iv (strike row / price) = true)
                by (apply kept_true; tauto).
              congruence.
           ++ right. exists row'. split; assumption.
Qed.

Lemma for_options_points (fuel : nat) (options : list expiry) :
  forall fig fig' : figure,
    for_options fuel options fig = Finished fig' ->
    aligned fig ->
    aligned fig'
    /\ (forall e, In e options -> calls e <> [] -> (0 <= days e)%Z)
    /\ forall p, In p (points fig') <->
                 In p (points fig)
                 \/ exists e, In e options /\ option_point fuel e p.
Proof.
  induction options as [| e options IH]; intros fig fig' Hrun Hal.
  - cbn in Hrun. injection Hrun as <-.
    split; [exact Hal |]. split; [intros e [] |].
    intro p. split; [tauto |].
    intros [H | (e & [] & _)]. exact H.
  - cbn [for_options] in Hrun.
    destruct (Req_b (IZR (days e) / 365) 0) eqn:Hz.
    + apply Req_b_true, years_zero in Hz.
      destruct (IH _ _ Hrun Hal) as (Hal' & Hdays & Hin).
      split; [exact Hal' |]. split.
      * intros e' [<- | He'] Hrows; [lia | apply Hdays; assumption].
      * intro p. rewrite Hin. split.
        -- intros [H | (e' & He' & Hp)]; [left; exact H |].
           right. exists e'. split; [right; exact He' | exact Hp].
        -- intros [H | (e' & [<- | He'] & Hp)].
           ++ left. exact H.
           ++ destruct Hp as [Hnz _]. contradiction.
           ++ right. exists e'. split; assumption.
    + apply Req_b_false in Hz.
      assert (Hnz : days e <> 0%Z) by (intro H0; apply Hz, years_zero, H0).
      destruct (for_calls fuel (price e) (IZR (days e) / 365) (calls e) fig)
        as [fig1 | |] eqn:Hcalls; try discriminate.
      destruct (for_calls_points _ _ _ _ _ _ Hcalls Hal)
        as (Hal1 & HT & _ & Hin1).
      destruct (IH _ _ Hrun Hal1) as (Hal' & Hdays & Hin).
      split; [exact Hal' |]. split.
      * intros e' [<- | He'] Hrows; [| apply Hdays; assumption].
        specialize (HT Hrows).
        destruct (Z_lt_le_dec (days e) 0) as [Hneg | Hpos]; [| exact Hpos].
        apply years_negative in Hneg. lra.
      * intro p. rewrite Hin, Hin1. split.
        -- intros [[H | (row & Hrow & Hp)] | (e' & He' & Hp)].
           ++ left. exact H.
           ++ right. exists e. split; [left; reflexivity |].
              split; [exact Hnz |]. exists row. split; assumption.
           ++ right. exists e'. split; [right; exact He' | exact Hp].
        -- intros [H | (e' & [<- | He'] & Hp)].
           ++ left. left. exact H.
           ++ left. right. destruct Hp as (_ & row & Hrow & Hp).
              exists row. split; assumption.
           ++ right. exists e'. split; assumption.
Qed.

Lemma no_points_aligned : aligned no_points.
Proof. split; reflexivity. Qed.

Lemma plot_ivs_figure (fuel : nat) (options : list expiry) (code : Z)
  (fig : figure) :
  plot_ivs fuel options = Finished (code, Some fig) ->
  options <> [] /\ code = 0%Z
  /\ for_options fuel options no_points = Finished fig.
Proof.
  unfold plot_ivs. destruct options as [| e rest]; [discriminate |].
  destruct (for_options fuel (e :: rest) no_points) as [fig' | |];
    try discriminate.
  intro H. injection H as <- <-. repeat split. discriminate.
Qed.

Lemma for_options_count (fuel : nat) (options : list expiry) :
  forall fig fig' : figure,
    for_options fuel options fig = Finished fig' ->
    aligned fig ->
    (length (ivs fig')
     <= length (ivs fig) + length (flat_map calls options))%nat.
Proof.
  induction options as [| e options IH]; intros fig fig' Hrun Hal.
  - cbn in Hrun. injection Hrun as <-. cbn. lia.
  - cbn [for_options] in Hrun. cbn [flat_map]. rewrite length_app.
    destruct (Req_b (IZR (days e) / 365) 0).
    + specialize (IH _ _ Hrun Hal). lia.
    + destruct (for_calls fuel (price e) (IZR (days e) / 365) (calls e) fig)
        as [fig1 | |] eqn:Hcalls; try discriminate.
      destruct (for_calls_points _ _ _ _ _ _ Hcalls Hal)
        as (Hal1 & _ & Hlen & _).
      specialize (IH _ _ Hrun Hal1). lia.
Qed.


(** The figure of a chain: one expiry a year away, spot 100, one call
    struck at 100 whose last price is the model price at volatility
    0.05. *)
Lemma one_call_chain :
  plot_ivs 1
    [ {| days := 365;
         calls := [ {| strike := 100;
                       lastPrice := call 100 100 (IZR 365 / 365) r_plot 0.05
                    |} ];
         price := 100 |} ]
  = Finished (0%Z, Some {| expirys := [IZR 365 / 365];
                           moneynesses := [100 / 100];
                           ivs := [0.05] |}).
Proof.
  assert (HT : IZR 365 / 365 = 1) by lra.
  assert (Hv : 0.001 <= vega 100 100 (IZR 365 / 365) r_plot 0.05).
  { rewrite HT. unfold vega, d, r_plot. cbn [fst].
    replace (100 / 100) with 1 by lra. rewrite ln_1, sqrt_1.
    replace ((0 + (0.0285 + 0.05 ^ 2 / 2) * 1) / (0.05 * 1)) with 0.595
      by (simpl; lra).
    pose proof (pdf_lower 0.595). lra. }
  assert (Hiv : call_iv 100 100 (IZR 365 / 365) r_plot
                  (call 100 100 (IZR 365 / 365) r_plot 0.05) 1
                = Some 0.05).
  { unfold call_iv, call_iv_exit.
    destruct s_list_head as [rest ->]. cbn [for_loop].
    rewrite exact_guess_converges by (lra || exact Hv). reflexivity. }
  unfold plot_ivs. cbn [for_options days calls price].
  assert (Hz : Req_b (IZR 365 / 365) 0 = false)
    by (apply Req_b_false; lra).
  rewrite Hz. cbn [for_calls strike lastPrice].
  assert (Hneg : Rlt_b (IZR 365 / 365) 0 = false)
    by (apply Rlt_b_false; lra).
  rewrite Hneg, Hiv.
  assert (Hk : kept 0.05 (100 / 100) = true)
    by (apply kept_true; split; lra).
  rewrite Hk. reflexivity.
Qed.

(** X9: the three lists [plot_ivs] hands to [scatter3D] always have the
    same length, one entry per plotted point, and there are at most as
    many points as there are rows in the calls tables. *)
Theorem plotted_lists_aligned (fuel : nat) (options : list expiry)
  (code : Z) (fig : figure) :
  plot_ivs fuel options = Finished (code, Some fig) ->
  length (expirys fig) = length (ivs fig)
  /\ length (moneynesses fig) = length (ivs fig)
  /\ length (points fig) = length (ivs fig)
  /\ (length (ivs fig) <= length (flat_map calls options))%nat.
Proof.
  intro H. apply plot_ivs_figure in H. destruct H as (_ & _ & Hrun).
  destruct (for_options_points _ _ _ _ Hrun no_points_aligned)
    as ([H1 H2] & _ & _).
  pose proof (for_options_count _ _ _ _ Hrun no_points_aligned) as Hc.
  cbn in Hc. repeat split; try lia.
  unfold points. rewrite !length_combine. lia.
Qed.

Lemma plotted_lists_aligned_witness :
  length [IZR 365 / 365] = length [0.05]
  /\ length [100 / 100] = length [0.05].
Proof.
  destruct (plotted_lists_aligned _ _ _ _ one_call_chain) as (H1 & H2 & _).
  split; [exact H1 | exact H2].
Defined.

(** X10: the points [plot_ivs] plots are exactly the triples
    (T, strike / price, iv) of the rows of expiries not dated today, with
    T = days / 365 and iv = call_iv(price, strike, T, 0.0285, lastPrice),
    for which iv is not 0 and 0 < strike / price < 2; the sign of iv is
    not tested. *)
Theorem plotted_points_characterised (fuel : nat) (options : list expiry)
  (code : Z) (fig : figure) :
  plot_ivs fuel options = Finished (code, Some fig) ->
  forall T moneyness iv : R,
    In (T, (moneyness, iv)) (points fig) <->
    exists e row,
      In e options /\ In row (calls e) /\ days e <> 0%Z
      /\ T = IZR (days e) / 365
      /\ moneyness = strike row / price e
      /\ call_iv (price e) (strike row) T r_plot (lastPrice row) fuel
         = Some iv
      /\ iv <> 0 /\ 0 < moneyness < 2.
Proof.
  intro H. apply plot_ivs_figure in H. destruct H as (_ & _ & Hrun).
  destruct (for_options_points _ _ _ _ Hrun no_points_aligned)
    as (_ & _ & Hin).
  intros T moneyness iv. rewrite Hin. cbn [points no_points combine In].
  split.
  - intros [[] | (e & He & Hnz & row & Hrow & iv' & Hiv & Hne & Hm & Hp)].
    injection Hp as -> -> ->.
    exists e, row. repeat split; try assumption; tauto.
  - intros (e & row & He & Hrow & Hnz & -> & -> & Hiv & Hne & Hm).
    right. exists e. split; [exact He |]. split; [exact Hnz |].
    exists row. split; [exact Hrow |]. exists iv. tauto.
Qed.

Lemma plotted_points_characterised_witness :
  exists e row,
    In e [ {| days := 365;
              calls := [ {| strike := 100;
                            lastPrice :=
                              call 100 100 (IZR 365 / 365) r_plot 0.05 |} ];
              price := 100 |} ]
    /\ In row (calls e) /\ days e <> 0%Z
    /\ IZR 365 / 365 = IZR (days e) / 365
    /\ 100 / 100 = strike row / price e
    /\ call_iv (price e) (strike row) (IZR 365 / 365) r_plot
         (lastPrice row) 1 = Some 0.05
    /\ 0.05 <> 0 /\ 0 < 100 / 100 < 2.
Proof.
  apply (plotted_points_characterised _ _ _ _ one_call_chain).
  cbn. left. reflexivity.
Defined.

(** X11: every point [plot_ivs] plots comes from an expiry ahead with a
    positive spot price and a row with a positive strike; its moneyness is
    strictly between 0 and 2, and its implied volatility is greater than
    -0.001 and lies within 0.001 of a positive volatility whose model
    price is within 1e-6 of the row's last price. *)
Theorem plotted_points_sound (fuel : nat) (options : list expiry)
  (code : Z) (fig : figure) (T moneyness iv : R) :
  plot_ivs fuel options = Finished (code, Some fig) ->
  In (T, (moneyness, iv)) (points fig) ->
  0 < T /\ 0 < moneyness < 2 /\ iv <> 0 /\ - 0.001 < iv
  /\ exists e row s0,
      In e options /\ In row (calls e)
      /\ T = IZR (days e) / 365 /\ moneyness = strike row / price e
      /\ 0 < price e /\ 0 < strike row
      /\ 0 < s0
      /\ Rabs (call (price e) (strike row) T r_plot s0 - lastPrice row)
         < 0.000001
      /\ Rabs (iv - s0) < 0.001.
Proof.
  intros H Hp. apply plot_ivs_figure in H. destruct H as (_ & _ & Hrun).
  destruct (for_options_points _ _ _ _ Hrun no_points_aligned)
    as (_ & Hdays & Hin).
  apply Hin in Hp. cbn [points no_points combine In] in Hp.
  destruct Hp
    as [[] | (e & He & Hnz & row & Hrow & iv' & Hiv & Hne & Hm & Hp)].
  injection Hp as -> -> ->.
  assert (Hpos : (0 <= days e)%Z).
  { apply Hdays; [exact He |]. intro Hnil. rewrite Hnil in Hrow.
    destruct Hrow. }
  assert (HT : 0 < IZR (days e) / 365).
  { assert (0 < days e)%Z as Hlt by lia. apply IZR_lt in Hlt. lra. }
  pose proof (call_iv_nonzero_exit _ _ _ _ _ _ _ Hiv Hne) as Hexit.
  apply call_iv_exit_ReturnS in Hexit.
  destruct Hexit as (s0 & Hs0 & Hvega & Hd & _ & Hnear).
  assert (Hprice : 0 < price e).
  { destruct (Rlt_dec 0 (price e)) as [Hlt | Hle]; [exact Hlt |].
    exfalso. unfold vega in Hvega.
    pose proof (pdf_pos (fst (d (price e) (strike row)
                                (IZR (days e) / 365) r_plot s0))) as Hpdf.
    pose proof (sqrt_pos (IZR (days e) / 365)) as Hq.
    assert (price e
            * Norm.pdf (fst (d (price e) (strike row)
                               (IZR (days e) / 365) r_plot s0)) <= 0)
      by nra.
    nra. }
  assert (Hstrike : 0 < strike row).
  { destruct Hm as [Hm _]. unfold Rdiv in Hm.
    assert (Hinv : 0 < / price e) by (apply Rinv_0_lt_compat; exact Hprice).
    nra. }
  split; [exact HT |]. split; [exact Hm |]. split; [exact Hne |]. split.
  - apply Rabs_def2 in Hnear. lra.
  - exists e, row, s0. unfold diff, good_bound in Hd.
    repeat split; assumption || apply Hm.
Qed.

Lemma plotted_points_sound_witness :
  0 < IZR 365 / 365 /\ 0 < 100 / 100 < 2 /\ 0.05 <> 0 /\ - 0.001 < 0.05.
Proof.
  destruct (plotted_points_sound _ _ _ _ (IZR 365 / 365) (100 / 100) 0.05
              one_call_chain) as (H1 & H2 & H3 & H4 & _).
  - cbn. left. reflexivity.
  - repeat split; assumption || apply H2.
Defined.



(** X13: expiries dated today are skipped before any price is computed:
    the loop over the options gives the same result with them removed,
    whatever the fuel; and a ticker whose expiries are all dated today
    gets the return value 0 and an empty figure, not the return value 1 of
    a ticker without options. *)
Theorem todays_expiries_skipped (fuel : nat) (options : list expiry)
  (fig : figure) :
  for_options fuel options fig
  = for_options fuel
      (filter (fun e => negb (days e =? 0)%Z) options) fig
  /\ (options <> [] ->
      (forall e, In e options -> days e = 0%Z) ->
      plot_ivs fuel options = Finished (0%Z, Some no_points))
  /\ plot_ivs fuel [] = Finished (1%Z, None).
Proof.
  split; [| split].
  - revert fig. induction options as [| e options IH]; intro fig;
      [reflexivity |].
    cbn [for_options filter].
    destruct (Z.eqb_spec (days e) 0) as [Hz | Hnz]; cbn [negb].
    + assert (H : Req_b (IZR (days e) / 365) 0 = true)
        by (apply Req_b_true, years_zero; exact Hz).
      rewrite H. apply IH.
    + assert (H : Req_b (IZR (days e) / 365) 0 = false).
      { apply Req_b_false. intro H0. apply years_zero in H0.
        contradiction. }
      cbn [for_options]. rewrite H.
      destruct (for_calls fuel (price e) (IZR (days e) / 365) (calls e) fig);
        [apply IH | reflexivity | reflexivity].
  - intros Hne Hall. unfold plot_ivs.
    destruct options as [| e0 l] eqn:Hl; [contradiction Hne; reflexivity |].
    rewrite <- Hl in *. clear Hl Hne.
    assert (H : forall f, for_options fuel options f = Finished f).
    { induction options as [| e options IH]; intro f; [reflexivity |].
      cbn [for_options].
      assert (Hz : Req_b (IZR (days e) / 365) 0 = true).
      { apply Req_b_true, years_zero, Hall. left. reflexivity. }
      rewrite Hz. apply IH. intros e' He'. apply Hall. right. exact He'. }
    rewrite H. reflexivity.
  - reflexivity.
Qed.

(** X14: what [main] prints.  Without a symbol on the command line it
    prints the usage line and looks nothing up.  With one, it prints
    "Invalid ticker symbol." exactly when the ticker has no options;
    otherwise, when [plot_ivs] finishes, it prints nothing and shows a
    figure with aligned lists, which may be empty. *)
Theorem main_messages (fuel : nat) (market : string -> list expiry)
  (prog symbol : string) (rest : list string) :
  main fuel market [] = Finished (["Provide ticker symbol."%string], None)
  /\ main fuel market [prog]
     = Finished (["Provide ticker symbol."%string], None)
  /\ (market symbol = [] ->
      main fuel market (prog :: symbol :: rest)
      = Finished (["Invalid ticker symbol."%string], None))
  /\ forall lines shown,
      main fuel market (prog :: symbol :: rest) = Finished (lines, shown) ->
      market symbol <> [] ->
      lines = []
      /\ exists fig,
          shown = Some fig /\ aligned fig
          /\ for_options fuel (market symbol) no_points = Finished fig.
Proof.
  repeat split.
  - intro Hempty. cbn [main]. rewrite Hempty. reflexivity.
  - cbn [main] in H. unfold plot_ivs in H.
    destruct (market symbol) as [| e0 l]; [contradiction H0; reflexivity |].
    destruct (for_options fuel (e0 :: l) no_points); try discriminate.
    cbn in H. injection H as <- _. reflexivity.
  - cbn [main] in H. unfold plot_ivs in H.
    destruct (market symbol) as [| e0 l] eqn:Hm;
      [contradiction H0; reflexivity |].
    destruct (for_options fuel (e0 :: l) no_points) as [fig | |] eqn:Hf;
      try discriminate.
    cbn in H. injection H as _ <-. exists fig.
    split; [reflexivity |]. split; [| reflexivity].
    apply (for_options_points _ _ _ _ Hf no_points_aligned).
Qed.

Lemma main_messages_witness :
  main 3 (fun _ => []) ["project.py"%string; "XYZ"%string]
  = Finished (["Invalid ticker symbol."%string], None).
Proof.
  apply (main_messages 3 (fun _ => []) "project.py" "XYZ" []).
  reflexivity.
Defined.

(** X15: a chain in which every expiry lies ahead or today, every spot
    price is positive and price · sqrt(days / 365) is below 0.0024 at
    every expiry gets an empty figure and the return value 0: every
    solve fails on flat vega and its 0 is filtered out. *)
Theorem small_spot_chain_empty (fuel : nat) (options : list expiry) :
  options <> [] ->
  (forall e, In e options ->
             (0 <= days e)%Z /\ 0 < price e
             /\ price e * sqrt (IZR (days e) / 365) < 0.0024) ->
  plot_ivs (S fuel) options = Finished (0%Z, Some no_points).
Proof.
  intros Hne Hall. unfold plot_ivs.
  destruct options as [| e0 l] eqn:Hl; [contradiction Hne; reflexivity |].
  rewrite <- Hl in *. clear Hl Hne.
  assert (H : forall f, for_options (S fuel) options f = Finished f).
  { induction options as [| e options IH]; intro f; [reflexivity |].
    cbn [for_options].
    destruct (Req_b (IZR (days e) / 365) 0) eqn:Hz;
      [apply IH; intros e' He'; apply Hall; right; exact He' |].
    apply Req_b_false in Hz.
    destruct (Hall e (or_introl eq_refl)) as (Hd & Hp & Hflat).
    assert (HT : 0 < IZR (days e) / 365).
    { apply IZR_le in Hd. lra. }
    assert (Hrows : forall rows f',
               for_calls (S fuel) (price e) (IZR (days e) / 365) rows f'
               = Finished f').
    { induction rows as [| row rows IHr]; intro f'; [reflexivity |].
      cbn [for_calls].
      assert (Hlt : Rlt_b (IZR (days e) / 365) 0 = false)
        by (apply Rlt_b_false; lra).
      rewrite Hlt, small_spot_value by assumption.
      assert (Hk : kept 0 (strike row / price e) = false).
      { destruct (kept 0 (strike row / price e)) eqn:Hk; [| reflexivity].
        apply kept_true in Hk. destruct Hk as [Hk _].
        contradiction Hk. reflexivity. }
      rewrite Hk. apply IHr. }
    rewrite Hrows. apply IH. intros e' He'. apply Hall. right. exact He'. }
  rewrite H. reflexivity.
Qed.

Lemma small_spot_chain_empty_witness :
  plot_ivs 1
    [ {| days := 365;
         calls := [ {| strike := 1 / 500; lastPrice := 1 / 5000 |} ];
         price := 1 / 500 |} ]
  = Finished (0%Z, Some no_points).
Proof.
  apply (small_spot_chain_empty 0); [discriminate |].
  intros e [<- | []]. cbn [days price].
  replace (IZR 365 / 365) with 1 by lra. rewrite sqrt_1.
  repeat split; try lra. lia.
Defined.
